(** * Deterministic finite-state simulator: a shallow embedding of Simulator.c

    The development follows the C source function by function:
    - the line source [GetLine] (over a model of [fgets]/[feof]),
    - the tokenizer [ReadWord] (over a model of [sscanf "%s"]),
    - the name resolvers [StateToIdx] and [TransitionToIdx],
    - the loader [LoadAutomaton],
    - the simulation engine [ProcessString] and the driver [main].

    Conventions.  A C string is the list of its characters before the
    terminating NUL.  A C array paired with a counter ([statesNames] with
    [statesNum], [transitions] with [transitionsNum]) is the list of its
    cells below the counter, the counter being the length of the list; cells
    at or above the counter are never read by the program.  [int] values that
    can be the sentinel -1 are in [Z].  Behaviour the C standard leaves
    undefined (an access outside an array, a read of an uninitialised
    buffer) is an explicit outcome of the model, never a silent default. *)

From Stdlib Require Import Ascii.
From Equations Require Import Equations.
From stdpp Require Import base list strings.

Open Scope Z_scope.

Abbreviation cstring := (list ascii).

(** A string literal as a C string. *)
Definition cs (s : string) : cstring := String.list_ascii_of_string s.

Definition MAX_LINE_LENGTH : nat := 4096.
Definition MAX_STATES : nat := 256.
Definition MAX_SYMBOLS : nat := 256.

(** ** Characters *)

Definition NUL : ascii := ascii_of_nat 0.
Definition NL : ascii := ascii_of_nat 10.
Definition SPACE : ascii := ascii_of_nat 32.
Definition HASH : ascii := ascii_of_nat 35.

(** [isspace] in the C locale: space, \t, \n, \v, \f, \r. *)
Definition isspace (c : ascii) : bool :=
  let n := nat_of_ascii c in
  (Nat.eqb n 32 || (Nat.leb 9 n && Nat.leb n 13))%bool.

(** [s[0]] of a C string held in a buffer: the terminator when it is empty. *)
Definition first_char (s : cstring) : ascii :=
  match s with
  | [] => NUL
  | c :: _ => c
  end.

(** ** sscanf with the "%s" conversion *)

Fixpoint skip_isspace (s : cstring) : cstring :=
  match s with
  | [] => []
  | c :: s' => if isspace c then skip_isspace s' else s
  end.

(** The longest prefix free of white space, and what follows it. *)
Fixpoint span_word (s : cstring) : cstring * cstring :=
  match s with
  | [] => ([], [])
  | c :: s' =>
      if isspace c then ([], s)
      else let '(w, r) := span_word s' in (c :: w, r)
  end.

(** One "%s" directive: white space is skipped, then the characters up to
    the next white space are stored.  [None] is the input failure (the
    string ends before a character is stored). *)
Definition scan_s (s : cstring) : option (cstring * cstring) :=
  match span_word (skip_isspace s) with
  | ([], _) => None
  | (w, r) => Some (w, r)
  end.

(** [sscanf(str, "%s", word)]: the number of conversions, or EOF = -1, and
    the word stored. *)
Definition sscanf1 (str : cstring) : Z * option cstring :=
  match scan_s str with
  | None => (-1, None)
  | Some (w, _) => (1, Some w)
  end.

(** [sscanf(line, "%s %s %s", from, symb, to)]: the buffers that were
    written, in order; a buffer that was not written keeps its
    (uninitialised) content, which is [None] here. *)
Definition sscanf3 (line : cstring)
  : option cstring * option cstring * option cstring :=
  match scan_s line with
  | None => (None, None, None)
  | Some (w1, r1) =>
      match scan_s r1 with
      | None => (Some w1, None, None)
      | Some (w2, r2) =>
          match scan_s r2 with
          | None => (Some w1, Some w2, None)
          | Some (w3, _) => (Some w1, Some w2, Some w3)
          end
      end
  end.

(** ** ReadWord (Simulator.c, lines 96-114) *)

(** First loop of [ReadWord]: advance while the character is neither a
    space nor the terminator. *)
Fixpoint skip_to_space (s : cstring) : cstring :=
  match s with
  | [] => []
  | c :: s' => if decide (c = SPACE) then s else skip_to_space s'
  end.

(** Second loop of [ReadWord]: advance while the character is a space. *)
Fixpoint skip_spaces (s : cstring) : cstring :=
  match s with
  | [] => []
  | c :: s' => if decide (c = SPACE) then skip_spaces s' else s
  end.

(** [None] is the NULL result; otherwise the word stored and the pointer
    returned. *)
Definition ReadWord (str : cstring) : option (cstring * cstring) :=
  match sscanf1 str with
  | (1, Some word) => Some (word, skip_spaces (skip_to_space str))
  | _ => None
  end.

Lemma skip_spaces_length s : (length (skip_spaces s) <= length s)%nat.
Proof.
  induction s as [|c s IH]; simpl; [lia|].
  destruct (decide (c = SPACE)); simpl; lia.
Qed.

Lemma skip_to_space_length s : (length (skip_to_space s) <= length s)%nat.
Proof.
  induction s as [|c s IH]; simpl; [lia|].
  destruct (decide (c = SPACE)); simpl; lia.
Qed.

Lemma scan_s_nonempty s w r : scan_s s = Some (w, r) -> s <> [].
Proof. intros H ->. discriminate H. Qed.

(** The pointer returned by a successful [ReadWord] is strictly further. *)
Lemma ReadWord_advances str word rest :
  ReadWord str = Some (word, rest) -> (length rest < length str)%nat.
Proof.
  unfold ReadWord, sscanf1. destruct (scan_s str) as [[w r]|] eqn:E; [|discriminate].
  intros [= <- <-]. apply scan_s_nonempty in E.
  destruct str as [|c s]; [congruence|]. simpl.
  destruct (decide (c = SPACE)).
  - simpl. destruct (decide (c = SPACE)); [|congruence].
    pose proof (skip_spaces_length s). lia.
  - pose proof (skip_spaces_length (skip_to_space s)).
    pose proof (skip_to_space_length s). lia.
Qed.

(** The words seen by the loop
    [while ((p = ReadWord(p, word)) != NULL) { ... word ... }]. *)
Equations? ReadWords (str : cstring) : list cstring by wf (length str) lt :=
  ReadWords str with Logic.inspect (ReadWord str) := {
    | exist _ None _ => [];
    | exist _ (Some (word, rest)) E => word :: ReadWords rest }.
Proof. eapply ReadWord_advances; eassumption. Qed.

(** ** Text streams: fgets and feof *)

(** An open stream: the bytes not yet read and the end-of-file indicator. *)
Record FILE := mkFILE { unread : list ascii; eof_ind : bool }.

(** [fopen(path, "r")] on a file with the given content. *)
Definition fopen (content : list ascii) : FILE := mkFILE content false.

Definition feof (f : FILE) : bool := eof_ind f.

(** The characters [fgets] stores when at most [k] may be stored: it stops
    after a newline, after [k] characters, or at the end of the file; only
    in the last case it has tried to read past the end, which sets the
    end-of-file indicator. *)
Fixpoint fgets_chars (k : nat) (d : list ascii) : list ascii * FILE :=
  match k with
  | O => ([], mkFILE d false)
  | S k' =>
      match d with
      | [] => ([], mkFILE [] true)
      | c :: d' =>
          if decide (c = NL) then ([c], mkFILE d' false)
          else let '(l, f) := fgets_chars k' d' in (c :: l, f)
      end
  end.

(** [fgets(line, n, f)]: [None] is NULL (nothing was read: the stream is
    at its end, and the indicator is set); otherwise the bytes stored
    before the terminator. *)
Definition fgets (n : nat) (f : FILE) : option (list ascii) * FILE :=
  if eof_ind f then (None, f)
  else match unread f with
       | [] => (None, mkFILE [] true)
       | d => let '(l, f') := fgets_chars (n - 1) d in (Some l, f')
       end.

(** The C string held by a buffer: its bytes before the first NUL. *)
Fixpoint c_str (buf : list ascii) : cstring :=
  match buf with
  | [] => []
  | c :: buf' => if decide (c = NUL) then [] else c :: c_str buf'
  end.

Lemma fgets_chars_shrinks k d l f :
  fgets_chars k d = (l, f) -> (length (unread f) + length l = length d)%nat.
Proof.
  revert d l f. induction k as [|k IH]; intros d l f; simpl.
  - intros [= <- <-]. simpl. lia.
  - destruct d as [|c d]; [intros [= <- <-]; simpl; lia|].
    destruct (decide (c = NL)); [intros [= <- <-]; simpl; lia|].
    destruct (fgets_chars k d) as [l' f'] eqn:E. intros [= <- <-].
    apply IH in E. simpl. lia.
Qed.

Lemma fgets_chars_nonempty k c d l f :
  fgets_chars (S k) (c :: d) = (l, f) -> l <> [].
Proof.
  simpl. destruct (decide (c = NL)); [intros [= <- <-]; discriminate|].
  destruct (fgets_chars k d). intros [= <- <-]. discriminate.
Qed.

Lemma fgets_advances f l f' :
  fgets MAX_LINE_LENGTH f = (Some l, f') ->
  (length (unread f') < length (unread f))%nat.
Proof.
  unfold fgets. destruct (eof_ind f); [discriminate|].
  destruct (unread f) as [|c d] eqn:Ed; [discriminate|].
  change (MAX_LINE_LENGTH - 1)%nat with (S 4094).
  destruct (fgets_chars (S 4094) (c :: d)) as [l0 f0] eqn:E.
  intros [= <- <-].
  pose proof (fgets_chars_shrinks _ _ _ _ E) as Hs.
  pose proof (fgets_chars_nonempty _ _ _ _ _ E) as Hn.
  destruct l0; [congruence|]. simpl in Hs. simpl. lia.
Qed.

(** ** GetLine (Simulator.c, lines 36-64) *)

(** The condition of the do-while loop, apart from [!feof(f)]. *)
Definition skipped_line (line : list ascii) : bool :=
  let c := first_char line in
  bool_decide (c = NUL) || bool_decide (c = NL) || bool_decide (c = HASH).

(** The do-while loop.  [None]: [fgets] returned NULL, and so does
    [GetLine]; otherwise the content of the buffer when the loop is left. *)
Equations? GetLine_loop (f : FILE) : option (list ascii) * FILE
  by wf (length (unread f)) lt :=
  GetLine_loop f with Logic.inspect (fgets MAX_LINE_LENGTH f) := {
    | exist _ (None, f') _ => (None, f');
    | exist _ (Some line, f') E =>
        if negb (feof f') && skipped_line line
        then GetLine_loop f'
        else (Some line, f') }.
Proof. eapply fgets_advances; eassumption. Qed.

(** [None] is the NULL result. *)
Definition GetLine (f : FILE) : option cstring * FILE :=
  match GetLine_loop f with
  | (None, f') => (None, f')
  | (Some buf, f') =>
      if feof f' then (None, f')
      else
        let line := c_str buf in
        let nextlinePos := Z.of_nat (length line) - 1 in
        if decide (nextlinePos <= 0) then (None, f')
        else if decide (last line = Some NL)
             then (Some (removelast line), f')
             else (Some line, f')
  end.

Lemma GetLine_loop_advances f buf f' :
  GetLine_loop f = (Some buf, f') ->
  (length (unread f') < length (unread f))%nat.
Proof.
  revert buf f'. funelim (GetLine_loop f); intros buf fo; [|discriminate].
  pose proof (fgets_advances _ _ _ E) as Hadv.
  destruct (negb (feof f') && skipped_line line).
  - intros Hrec. specialize (H _ _ Hrec). lia.
  - intros [= <- <-]. exact Hadv.
Qed.

Lemma GetLine_advances f line f' :
  GetLine f = (Some line, f') ->
  (length (unread f') < length (unread f))%nat.
Proof.
  unfold GetLine. destruct (GetLine_loop f) as [[buf|] f0] eqn:E; [|discriminate].
  apply GetLine_loop_advances in E.
  destruct (feof f0); [discriminate|].
  repeat case_decide; intros [= <- <-]; exact E.
Qed.

(** The lines seen by the loop
    [while ((line = GetLine(f)) != NULL) { ... line ... }]. *)
Equations? ReadLines (f : FILE) : list cstring by wf (length (unread f)) lt :=
  ReadLines f with Logic.inspect (GetLine f) := {
    | exist _ (None, _) _ => [];
    | exist _ (Some line, f') E => line :: ReadLines f' }.
Proof. eapply GetLine_advances; eassumption. Qed.

(** ** The automaton (Simulator.c, lines 10-31) *)

Record Automaton := mkAutomaton {
  statesNames : list cstring;       (* statesNames[0 .. statesNum-1] *)
  finishState : list Z;             (* finishState[0 .. statesNum-1] *)
  startStateIndex : Z;
  transitions : list ascii;         (* transitions[0 .. transitionsNum-1] *)
  transitionTable : list (list Z)   (* transitionTable[state][symbol] *)
}.

Definition statesNum (a : Automaton) : Z := Z.of_nat (length (statesNames a)).
Definition transitionsNum (a : Automaton) : Z := Z.of_nat (length (transitions a)).

Definition set_statesNames (v : list cstring) (a : Automaton) : Automaton :=
  mkAutomaton v (finishState a) (startStateIndex a) (transitions a) (transitionTable a).
Definition set_finishState (v : list Z) (a : Automaton) : Automaton :=
  mkAutomaton (statesNames a) v (startStateIndex a) (transitions a) (transitionTable a).
Definition set_startStateIndex (v : Z) (a : Automaton) : Automaton :=
  mkAutomaton (statesNames a) (finishState a) v (transitions a) (transitionTable a).
Definition set_transitions (v : list ascii) (a : Automaton) : Automaton :=
  mkAutomaton (statesNames a) (finishState a) (startStateIndex a) v (transitionTable a).
Definition set_transitionTable (v : list (list Z)) (a : Automaton) : Automaton :=
  mkAutomaton (statesNames a) (finishState a) (startStateIndex a) (transitions a) v.

(** An array read at an [int] index; [None] is the access out of bounds. *)
Definition zlookup {A} (l : list A) (i : Z) : option A :=
  if decide (i < 0) then None else l !! Z.to_nat i.

(** [table[i][j]]. *)
Definition table_get (t : list (list Z)) (i j : Z) : option Z :=
  match zlookup t i with
  | None => None
  | Some row => zlookup row j
  end.

(** [table[i][j] = v], for indices in bounds. *)
Definition table_set (t : list (list Z)) (i j : Z) (v : Z) : list (list Z) :=
  alter (fun row => <[Z.to_nat j := v]> row) (Z.to_nat i) t.

(** ** StateToIdx and TransitionToIdx (Simulator.c, lines 68-92) *)

(** The loop shared by the two functions, from index [i] on and over the
    cells from [i]: the index of the first cell equal to [x] ([strcmp] is 0
    for the names, [==] for the symbols), or -1. *)
Fixpoint first_index_from {A} `{EqDecision A} (i : Z) (cells : list A) (x : A) : Z :=
  match cells with
  | [] => -1
  | y :: cells' =>
      if decide (x = y) then i else first_index_from (i + 1) cells' x
  end.

Definition StateToIdx (a : Automaton) (state : cstring) : Z :=
  first_index_from 0 (statesNames a) state.

Definition TransitionToIdx (a : Automaton) (transition : ascii) : Z :=
  first_index_from 0 (transitions a) transition.

(** ** LoadAutomaton (Simulator.c, lines 118-259) *)

(** The messages written to stderr, one constructor per [fprintf]. *)
Inductive Diag :=
  | FileNotOpened
  | CannotReadInitialState
  | CannotReadStates
  | StartStateNotListed (initialState : cstring)
  | CannotReadSymbols
  | SymbolTwice (c : ascii)
  | CannotReadFinishStates
  | FinishStateNotListed (curState : cstring)
  | DuplicatedFinishState (curState : cstring)
  | InvalidTransition (from symb to : cstring)
  | DuplicateTransition (from symb to : cstring).

(** How a part of the loader ends: it goes on with a value, or it prints
    a message and returns 1 leaving the caller's struct as it stands, or
    its behaviour is undefined. *)
Inductive Step (A : Type) :=
  | Next (x : A)
  | Return1 (msg : Diag) (a : Automaton)
  | Undefined.
Arguments Next {A} x.
Arguments Return1 {A} msg a.
Arguments Undefined {A}.

#[global] Instance Step_bind : MBind Step := fun A B k m =>
  match m with
  | Next x => k x
  | Return1 msg a => Return1 msg a
  | Undefined => Undefined
  end.

(** [GetLine] with the NULL test that follows it. *)
Definition need_line (msg : Diag) (a : Automaton) (f : FILE) : Step (cstring * FILE) :=
  match GetLine f with
  | (None, _) => Return1 msg a
  | (Some line, f') => Next (line, f')
  end.

(** Lines 149-155: every word of the states line becomes a state. *)
Fixpoint load_states (a : Automaton) (words : list cstring) : Step Automaton :=
  match words with
  | [] => Next a
  | curState :: words' =>
      if decide (length (statesNames a) < MAX_STATES)%nat
      then load_states (set_statesNames (statesNames a ++ [curState]) a) words'
      else Undefined
  end.

(** Lines 173-188: the first character of every word becomes a symbol,
    unless it is one already. *)
Fixpoint load_symbols (a : Automaton) (words : list cstring) : Step Automaton :=
  match words with
  | [] => Next a
  | curSymbol :: words' =>
      let c := first_char curSymbol in
      if bool_decide (c ∈ transitions a) then Return1 (SymbolTwice c) a
      else if decide (length (transitions a) < MAX_SYMBOLS)%nat
      then load_symbols (set_transitions (transitions a ++ [c]) a) words'
      else Undefined
  end.

(** Lines 202-217: every word of the finish line marks a state. *)
Fixpoint load_finish (a : Automaton) (words : list cstring) : Step Automaton :=
  match words with
  | [] => Next a
  | curState :: words' =>
      let idx := StateToIdx a curState in
      if decide (idx = -1) then Return1 (FinishStateNotListed curState) a
      else match zlookup (finishState a) idx with
           | None => Undefined
           | Some v =>
               if decide (v = 1) then Return1 (DuplicatedFinishState curState) a
               else load_finish
                      (set_finishState (<[Z.to_nat idx := 1]> (finishState a)) a)
                      words'
           end
  end.

(** Lines 230-252: the body of the transition loop. *)
Definition transition_line (a : Automaton) (transitionLine : cstring) : Step Automaton :=
  match sscanf3 transitionLine with
  | (Some from, Some symb, Some to) =>
      let fromIdx := StateToIdx a from in
      let symbolIdx := TransitionToIdx a (first_char symb) in
      let toIdx := StateToIdx a to in
      if bool_decide (fromIdx = -1 \/ symbolIdx = -1 \/ toIdx = -1)
      then Return1 (InvalidTransition from symb to) a
      else match table_get (transitionTable a) fromIdx symbolIdx with
           | None => Undefined
           | Some old =>
               if decide (old <> -1)
               then Return1 (DuplicateTransition from symb to) a
               else Next (set_transitionTable
                            (table_set (transitionTable a) fromIdx symbolIdx toIdx) a)
           end
  | _ => Undefined
  end.

(** Lines 229-253: every remaining line is a transition. *)
Fixpoint load_transitions (a : Automaton) (lines : list cstring) : Step Automaton :=
  match lines with
  | [] => Next a
  | transitionLine :: lines' =>
      a' ← transition_line a transitionLine;
      load_transitions a' lines'
  end.

(** Lines 119-225: everything before the transition lines.  The result is
    the automaton with its table allocated and the stream after the four
    header lines. *)
Definition LoadHeader (a : Automaton) (file : option (list ascii))
  : Step (Automaton * FILE) :=
  let a := set_transitions [] (set_statesNames [] a) in
  match file with
  | None => Return1 FileNotOpened a
  | Some content =>
      let f := fopen content in
      '(initialState, f) ← need_line CannotReadInitialState a f;
      '(states, f) ← need_line CannotReadStates a f;
      a ← load_states a (ReadWords states);
      let a := set_startStateIndex (StateToIdx a initialState) a in
      if decide (startStateIndex a = -1)
      then Return1 (StartStateNotListed initialState) a
      else
        '(symbols, f) ← need_line CannotReadSymbols a f;
        a ← load_symbols a (ReadWords symbols);
        let a := set_finishState (replicate (length (statesNames a)) 0) a in
        '(finishStates, f) ← need_line CannotReadFinishStates a f;
        a ← load_finish a (ReadWords finishStates);
        let a := set_transitionTable
                   (replicate (length (statesNames a))
                      (replicate (length (transitions a)) (-1))) a in
        Next (a, f)
  end.

(** [file] is what [fopen(path, "r")] finds: [None] when the file cannot
    be opened, else its content.  [Next a'] is the return of 0 with the
    caller's struct filled as [a']. *)
Definition LoadAutomaton (a : Automaton) (file : option (list ascii)) : Step Automaton :=
  '(a, f) ← LoadHeader a file;
  load_transitions a (ReadLines f).

(** The value returned by [LoadAutomaton]. *)
Definition return_code (r : Step Automaton) : option Z :=
  match r with
  | Next _ => Some 0
  | Return1 _ _ => Some 1
  | Undefined => None
  end.

(** ** ProcessString (Simulator.c, lines 300-332) *)

(** Lines 305-307: is some character of the string outside the symbol set? *)
Fixpoint wrong_symbol (a : Automaton) (string : cstring) : bool :=
  match string with
  | [] => false
  | c :: string' =>
      if decide (TransitionToIdx a c = -1) then true else wrong_symbol a string'
  end.

(** Lines 313-331: the simulation from [currentState] over what is left of
    the string, and the final test.  [None] is an access out of bounds. *)
Fixpoint simulate (a : Automaton) (currentState : Z) (string : cstring) : option Z :=
  match string with
  | [] =>
      match zlookup (finishState a) currentState with
      | None => None
      | Some fin => if decide (fin <> 0) then Some 0 else Some 1
      end
  | c :: string' =>
      let curSymbolIdx := TransitionToIdx a c in
      match table_get (transitionTable a) currentState curSymbolIdx with
      | None => None
      | Some nextState =>
          if bool_decide (nextState = -1 \/ nextState >= statesNum a)
          then Some 1
          else simulate a nextState string'
      end
  end.

(** 0 - ACCEPTED, 1 - REJECTED, 2 - found wrong symbol. *)
Definition ProcessString (a : Automaton) (string : cstring) : option Z :=
  if wrong_symbol a string then Some 2
  else simulate a (startStateIndex a) string.

(** ** main (Simulator.c, lines 335-391) *)

(** The verdict lines written to stdout, one constructor per [case]. *)
Inductive Printed :=
  | ACCEPTED_LINE (line : cstring)
  | REJECTED_LINE (line : cstring)
  | WRONG_SYMBOL (line : cstring)
  | UNKNOWN_ERROR (line : cstring).

(** The [switch]: a result outside 0..3 prints nothing. *)
Definition print_result (res : Z) (line : cstring) : list Printed :=
  if decide (res = 0) then [ACCEPTED_LINE line]
  else if decide (res = 1) then [REJECTED_LINE line]
  else if decide (res = 2) then [WRONG_SYMBOL line]
  else if decide (res = 3) then [UNKNOWN_ERROR line]
  else [].

(** Lines 364-383 over the lines of the strings file. *)
Fixpoint process_lines (a : Automaton) (lines : list cstring) : option (list Printed) :=
  match lines with
  | [] => Some []
  | line :: lines' =>
      match ProcessString a line with
      | None => None
      | Some res =>
          match process_lines a lines' with
          | None => None
          | Some out => Some (print_result res line ++ out)
          end
      end
  end.

(** The exit status and the verdict lines, given the local struct as it
    is before the load and what the two paths typed by the user lead to.
    The prompts and the messages about files are left out. *)
Definition main (a : Automaton) (automatonFile stringsFile : option (list ascii))
  : option (Z * list Printed) :=
  match LoadAutomaton a automatonFile with
  | Undefined => None
  | Return1 _ _ => Some (1, [])
  | Next a' =>
      match stringsFile with
      | None => Some (1, [])
      | Some content =>
          match process_lines a' (ReadLines (fopen content)) with
          | None => None
          | Some out => Some (0, out)
          end
      end
  end.

(** ** Text files

    A plain line is a line as the file format means it: not empty, not a
    comment, free of NUL and newline characters, and short enough for the
    buffer of [GetLine] together with its newline. *)
Definition plain_line (l : cstring) : Prop :=
  skipped_line l = false /\ (NL ∉ l) /\ (NUL ∉ l) /\
  (length l + 1 < MAX_LINE_LENGTH)%nat.

#[global] Instance plain_line_dec l : Decision (plain_line l).
Proof. unfold plain_line. apply _. Defined.

(** The content of a file whose lines are all terminated by a newline. *)
Definition text (lines : list cstring) : list ascii :=
  concat (map (fun l => l ++ [NL]) lines).

(** ** Transition lines

    The indices a transition line resolves to against the declared names
    and symbols: those of its first three tokens, when there are three and
    all of them are known. *)
Definition resolve_line (names : list cstring) (symbols : list ascii) (line : cstring)
  : option (Z * Z * Z) :=
  match sscanf3 line with
  | (Some from, Some symb, Some to) =>
      let fromIdx := first_index_from 0 names from in
      let symbolIdx := first_index_from 0 symbols (first_char symb) in
      let toIdx := first_index_from 0 names to in
      if bool_decide (fromIdx = -1 \/ symbolIdx = -1 \/ toIdx = -1) then None
      else Some (fromIdx, symbolIdx, toIdx)
  | _ => None
  end.

(** The (from, symbol) pair of a transition line. *)
Definition line_pair (names : list cstring) (symbols : list ascii) (line : cstring)
  : option (Z * Z) :=
  match resolve_line names symbols line with
  | Some (i, j, _) => Some (i, j)
  | None => None
  end.

(** [k] is the index of the first occurrence of [name] among [names]. *)
Definition first_occurrence (names : list cstring) (name : cstring) (k : nat) : Prop :=
  names !! k = Some name /\ forall j : nat, (j < k)%nat -> names !! j <> Some name.

(** ** Loaded automatons *)

(** An automaton is loaded when some call of [LoadAutomaton] on a file
    that could be opened returned 0 and left it in the caller's struct. *)
Definition loaded (a : Automaton) : Prop :=
  exists a0 content, LoadAutomaton a0 (Some content) = Next a.

(** A list of finish flags. *)
Definition flags (l : list Z) : Prop := Forall (fun v => v = 0 \/ v = 1) l.

(** What the loader establishes: the indices kept in the struct are in
    bounds, and the table has a row per state and a column per symbol. *)
Definition table_ok (nstates : Z) (nsymbols : nat) (t : list (list Z)) : Prop :=
  Forall (fun row =>
            length row = nsymbols /\
            Forall (fun next => next = -1 \/ 0 <= next < nstates) row) t.

Record well_formed (a : Automaton) : Prop := {
  wf_start : 0 <= startStateIndex a < statesNum a;
  wf_finish_length : length (finishState a) = length (statesNames a);
  wf_finish_values : flags (finishState a);
  wf_table_length : length (transitionTable a) = length (statesNames a);
  wf_table : table_ok (statesNum a) (length (transitions a)) (transitionTable a)
}.

(** ** The simulation engine in the words of the specification

    Section 4.4: the verdict is one of three; an input with a character
    outside the alphabet is an invalid symbol; otherwise the input is folded
    from the start state through the partial transition function, an
    undefined transition ends the fold with a rejection, and a completed
    fold accepts exactly in a final state. *)

Inductive Verdict := Accepted | Rejected | InvalidSymbol.

(** The codes of the verdicts, as [main] reads them. *)
Definition verdict_code (v : Verdict) : Z :=
  match v with
  | Accepted => 0
  | Rejected => 1
  | InvalidSymbol => 2
  end.

Definition in_alphabet (a : Automaton) (c : ascii) : Prop := c ∈ transitions a.

#[global] Instance in_alphabet_dec a c : Decision (in_alphabet a c).
Proof. unfold in_alphabet. apply _. Defined.

(** Membership in [finalStates]. *)
Definition is_final (a : Automaton) (q : Z) : bool :=
  match zlookup (finishState a) q with
  | Some v => bool_decide (v <> 0)
  | None => false
  end.

(** The partial transition function: undefined where the table holds no
    target. *)
Definition spec_delta (a : Automaton) (q : Z) (c : ascii) : option Z :=
  match table_get (transitionTable a) q (TransitionToIdx a c) with
  | Some next => if decide (next = -1) then None else Some next
  | None => None
  end.

(** The left-to-right fold; [None] when a transition is undefined. *)
Fixpoint spec_fold (a : Automaton) (q : Z) (input : cstring) : option Z :=
  match input with
  | [] => Some q
  | c :: input' =>
      match spec_delta a q c with
      | None => None
      | Some q' => spec_fold a q' input'
      end
  end.

Definition classify (a : Automaton) (input : cstring) : Verdict :=
  if bool_decide (Forall (in_alphabet a) input) then
    match spec_fold a (startStateIndex a) input with
    | None => Rejected
    | Some q => if is_final a q then Accepted else Rejected
    end
  else InvalidSymbol.

(** ** The tokenizer in the words of the specification

    Section 4.2: the non-empty tokens of the line delimited by white space,
    from left to right. *)
Fixpoint spec_tokens_aux (cur : cstring) (line : cstring) : list cstring :=
  match line with
  | [] => if decide (cur = []) then [] else [cur]
  | c :: line' =>
      if isspace c
      then (if decide (cur = []) then [] else [cur]) ++ spec_tokens_aux [] line'
      else spec_tokens_aux (cur ++ [c]) line'
  end.

Definition spec_tokens (line : cstring) : list cstring := spec_tokens_aux [] line.

(** ** Example files *)

(** A struct before the load: nothing in it is meaningful. *)
Definition blank : Automaton := mkAutomaton [] [] 0 [] [].

Definition even_ones : list ascii := cs "even
even odd
0 1
even
even 0 even
even 1 odd
odd 0 odd
odd 1 even
".

Definition even_ones_automaton : Automaton :=
  mkAutomaton [cs "even"; cs "odd"] [1; 0] 0 (cs "01") [[0; 1]; [1; 0]].

Definition dead_end : list ascii := cs "s0
s0 s1 s2
a
s0
s0 a s1
s1 a s1
".

(** An automaton whose transition function is partial. *)
Definition partial_dfa : list ascii := cs "s0
s0 s1
a b
s1
s0 a s1
".

Definition partial_dfa_automaton : Automaton :=
  mkAutomaton [cs "s0"; cs "s1"] [0; 1] 0 (cs "ab") [[1; -1]; [-1; -1]].

(** A file that defines the transition from [even] on [0] twice. *)
Definition twice_defined : list ascii := cs "even
even odd
0 1
even
even 0 even
even 1 odd
even 0 odd
".

(** A file whose second transition line names an unknown state. *)
Definition unknown_target : list ascii := cs "even
even odd
0 1
even
even 0 even
even 1 nowhere
".

(** The struct and the stream of [twice_defined] after its header. *)
Definition twice_defined_header : Automaton :=
  mkAutomaton [cs "even"; cs "odd"] [1; 0] 0 (cs "01") [[-1; -1]; [-1; -1]].


(** The struct [unknown_target] leaves behind. *)
Definition unknown_target_left : Automaton :=
  mkAutomaton [cs "even"; cs "odd"] [1; 0] 0 (cs "01") [[0; -1]; [-1; -1]].

(** A file whose states line lists a name twice. *)
Definition repeated_state : list cstring :=
  [cs "q"; cs "p q p r"; cs "a b"; cs "q r"; cs "q a p"; cs "p b r"].

(** A line whose only white space is the space character. *)
Definition spaces_only (line : cstring) : Prop :=
  Forall (fun c => isspace c = true -> c = SPACE) line.

#[global] Instance spaces_only_dec line : Decision (spaces_only line).
Proof. unfold spaces_only. apply _. Defined.

(** A line of a text file that [GetLine] passes over: empty, or starting
    with the comment mark (or with a NUL byte). *)
Definition passed_over_line (l : cstring) : Prop :=
  skipped_line (l ++ [NL]) = true /\ (NL ∉ l) /\
  (length l + 1 < MAX_LINE_LENGTH)%nat.

#[global] Instance passed_over_line_dec l : Decision (passed_over_line l).
Proof. unfold passed_over_line. apply _. Defined.

(** ** The loader over the sequence of lines

    [LoadAutomaton] reads its file through [GetLine] only, one line per
    header stage and then all the lines that are left.  [LoadLines] is the
    same sequence of stages over the list of the lines [GetLine] yields;
    [LoadAutomaton_LoadLines] below relates the two. *)

(** [GetLine] with its NULL test, over the lines still to come. *)
Definition next_line (msg : Diag) (a : Automaton) (lines : list cstring)
  : Step (cstring * list cstring) :=
  match lines with
  | [] => Return1 msg a
  | line :: lines' => Next (line, lines')
  end.

Definition LoadLines (a : Automaton) (lines : list cstring) : Step Automaton :=
  let a := set_transitions [] (set_statesNames [] a) in
  '(initialState, lines) ← next_line CannotReadInitialState a lines;
  '(states, lines) ← next_line CannotReadStates a lines;
  a ← load_states a (ReadWords states);
  let a := set_startStateIndex (StateToIdx a initialState) a in
  if decide (startStateIndex a = -1)
  then Return1 (StartStateNotListed initialState) a
  else
    '(symbols, lines) ← next_line CannotReadSymbols a lines;
    a ← load_symbols a (ReadWords symbols);
    let a := set_finishState (replicate (length (statesNames a)) 0) a in
    '(finishStates, lines) ← next_line CannotReadFinishStates a lines;
    a ← load_finish a (ReadWords finishStates);
    let a := set_transitionTable
               (replicate (length (statesNames a))
                  (replicate (length (transitions a)) (-1))) a in
    load_transitions a lines.

(** Files with a bad finish line. *)
Definition unknown_final : list ascii := cs "even
even odd
0 1
odd nowhere
".

Definition twice_final : list ascii := cs "even
even odd
0 1
odd even odd
".

(** A file whose only transition line has two tokens. *)
Definition short_transition : list ascii := cs "even
even odd
0 1
even
even 0
".

(** ** PrintAutomaton (Simulator.c, lines 262-294) *)

(** What [PrintAutomaton] writes to stdout, one constructor per [printf]
    with a conversion; the fixed texts are the names of the constructors. *)
Inductive Dumped :=
  | Start_state (name : cstring)
  | End_states
  | All_states
  | Symbols
  | Name (name : cstring)          (* "%s " *)
  | Symbol (c : ascii)             (* "%c " *)
  | End_of_line
  | Transition_table
  | No_transition (from : cstring) (c : ascii)            (* "%6s %c ??????" *)
  | Transition (from : cstring) (c : ascii) (to : cstring).  (* "%6s %c %-6s" *)

(** Lines 268-270: the loop over the states that prints the finishing
    ones, from index [i] on. *)
Fixpoint dump_end_states (a : Automaton) (i : nat) (count : nat) : option (list Dumped) :=
  match count with
  | O => Some []
  | S count' =>
      match finishState a !! i with
      | Some fin =>
          let name :=
            if decide (fin = 1)
            then match statesNames a !! i with
                 | Some name => Some [Name name]
                 | None => None
                 end
            else Some [] in
          match name, dump_end_states a (S i) count' with
          | Some l, Some out => Some (l ++ out)
          | _, _ => None
          end
      | None => None
      end
  end.

(** Lines 286-293: the inner loop, over the columns from [j] on.  The
    cell and the symbol are read at [j], whatever the number of symbols. *)
Fixpoint dump_row (a : Automaton) (i : nat) (j : nat) (count : nat) : option (list Dumped) :=
  match count with
  | O => Some []
  | S count' =>
      match table_get (transitionTable a) (Z.of_nat i) (Z.of_nat j),
            statesNames a !! i, transitions a !! j with
      | Some toIndex, Some from, Some c =>
          let line :=
            if decide (toIndex = -1) then Some (No_transition from c)
            else match zlookup (statesNames a) toIndex with
                 | Some to => Some (Transition from c to)
                 | None => None
                 end in
          match line, dump_row a i (S j) count' with
          | Some l, Some out => Some (l :: out)
          | _, _ => None
          end
      | _, _, _ => None
      end
  end.

(** Lines 285-293: the outer loop, over the rows from [i] on; the inner
    loop runs [statesNum] times. *)
Fixpoint dump_table (a : Automaton) (i : nat) (count : nat) : option (list Dumped) :=
  match count with
  | O => Some []
  | S count' =>
      match dump_row a i 0 (length (statesNames a)), dump_table a (S i) count' with
      | Some row, Some out => Some (row ++ out)
      | _, _ => None
      end
  end.

(** [None] is an access out of bounds. *)
Definition PrintAutomaton (a : Automaton) : option (list Dumped) :=
  match zlookup (statesNames a) (startStateIndex a),
        dump_end_states a 0 (length (statesNames a)),
        dump_table a 0 (length (statesNames a)) with
  | Some start, Some ends, Some table =>
      Some ([Start_state start] ++ [End_states] ++ ends ++ [End_of_line]
            ++ [All_states] ++ map Name (statesNames a) ++ [End_of_line]
            ++ [Symbols] ++ map Symbol (transitions a) ++ [End_of_line]
            ++ [Transition_table] ++ table)
  | _, _, _ => None
  end.

(** ** The verdict lines of main *)

Definition print_verdict (v : Verdict) (line : cstring) : Printed :=
  match v with
  | Accepted => ACCEPTED_LINE line
  | Rejected => REJECTED_LINE line
  | InvalidSymbol => WRONG_SYMBOL line
  end.

(** ** The failure exits of the loader

    [LoadFailure a0 lines msg a'] lists the statements [return 1] of
    [LoadAutomaton] after the file is open: over the lines [GetLine] yields,
    the message written and the struct as the caller finds it, [a0] being
    the struct before the call. *)

(** The struct once the states line is stored and the start state
    resolved (to -1 when it is not listed), with the symbols and the flags
    given. *)
Definition stored (a0 : Automaton) (start statesLine : cstring)
    (symbols : list ascii) (flags : list Z) : Automaton :=
  mkAutomaton (ReadWords statesLine) flags
    (first_index_from 0 (ReadWords statesLine) start) symbols (transitionTable a0).

(** The struct at the start of the finish loop: all the symbols, and the
    flags of all the states cleared. *)
Definition before_finish (a0 : Automaton) (start statesLine symbolsLine : cstring)
  : Automaton :=
  stored a0 start statesLine (map first_char (ReadWords symbolsLine))
    (replicate (length (ReadWords statesLine)) 0).

Inductive LoadFailure (a0 : Automaton) : list cstring -> Diag -> Automaton -> Prop :=
  | at_initial_state :
      LoadFailure a0 [] CannotReadInitialState
        (set_transitions [] (set_statesNames [] a0))
  | at_states start :
      LoadFailure a0 [start] CannotReadStates
        (set_transitions [] (set_statesNames [] a0))
  | at_start_state start statesLine more :
      start ∉ ReadWords statesLine ->
      LoadFailure a0 (start :: statesLine :: more) (StartStateNotListed start)
        (stored a0 start statesLine [] (finishState a0))
  | at_symbols start statesLine :
      start ∈ ReadWords statesLine ->
      LoadFailure a0 [start; statesLine] CannotReadSymbols
        (stored a0 start statesLine [] (finishState a0))
  | at_symbol start statesLine symbolsLine more pre w post :
      start ∈ ReadWords statesLine ->
      ReadWords symbolsLine = pre ++ w :: post ->
      NoDup (map first_char pre) ->
      first_char w ∈ map first_char pre ->
      LoadFailure a0 (start :: statesLine :: symbolsLine :: more)
        (SymbolTwice (first_char w))
        (stored a0 start statesLine (map first_char pre) (finishState a0))
  | at_finish_states start statesLine symbolsLine :
      start ∈ ReadWords statesLine ->
      NoDup (map first_char (ReadWords symbolsLine)) ->
      LoadFailure a0 [start; statesLine; symbolsLine] CannotReadFinishStates
        (before_finish a0 start statesLine symbolsLine)
  | at_unknown_final start statesLine symbolsLine finishLine more pre w post a' :
      start ∈ ReadWords statesLine ->
      NoDup (map first_char (ReadWords symbolsLine)) ->
      ReadWords finishLine = pre ++ w :: post ->
      load_finish (before_finish a0 start statesLine symbolsLine) pre = Next a' ->
      w ∉ ReadWords statesLine ->
      LoadFailure a0 (start :: statesLine :: symbolsLine :: finishLine :: more)
        (FinishStateNotListed w) a'
  | at_duplicate_final start statesLine symbolsLine finishLine more pre w post a' :
      start ∈ ReadWords statesLine ->
      NoDup (map first_char (ReadWords symbolsLine)) ->
      ReadWords finishLine = pre ++ w :: post ->
      load_finish (before_finish a0 start statesLine symbolsLine) pre = Next a' ->
      zlookup (finishState a') (StateToIdx a' w) = Some 1 ->
      LoadFailure a0 (start :: statesLine :: symbolsLine :: finishLine :: more)
        (DuplicatedFinishState w) a'
  | at_transition start statesLine symbolsLine finishLine pre line post a4 msg a' :
      start ∈ ReadWords statesLine ->
      NoDup (map first_char (ReadWords symbolsLine)) ->
      load_finish (before_finish a0 start statesLine symbolsLine)
        (ReadWords finishLine) = Next a4 ->
      load_transitions
        (set_transitionTable
           (replicate (length (statesNames a4))
              (replicate (length (transitions a4)) (-1))) a4) pre = Next a' ->
      transition_line a' line = Return1 msg a' ->
      LoadFailure a0
        (start :: statesLine :: symbolsLine :: finishLine :: pre ++ line :: post)
        msg a'.

(** * Properties *)

(** ** Name resolution *)

Section first_index.
Context {A : Type} `{EqDecision A}.
Implicit Types (l : list A) (x : A) (i : Z).

Lemma first_index_from_absent i l x :
  x ∉ l -> first_index_from i l x = -1.
Proof.
  revert i. induction l as [|y l IH]; intros i Hx; simpl; [done|].
  apply not_elem_of_cons in Hx as [Hne Hx].
  destruct (decide (x = y)); [done|]. by apply IH.
Qed.

(** A name that is listed resolves to the index of its first occurrence. *)
Lemma first_index_from_present i l x :
  x ∈ l ->
  exists k : nat,
    first_index_from i l x = i + Z.of_nat k /\
    l !! k = Some x /\
    forall j : nat, (j < k)%nat -> l !! j <> Some x.
Proof.
  revert i. induction l as [|y l IH]; intros i Hx; [by apply elem_of_nil in Hx|].
  simpl. destruct (decide (x = y)) as [->|Hne].
  - exists 0%nat. split; [lia|]. split; [done|]. intros j Hj. lia.
  - apply elem_of_cons in Hx as [Hx|Hx]; [done|].
    destruct (IH (i + 1) Hx) as (k & Hk & Hlk & Hfirst).
    exists (S k). split; [lia|]. split; [done|].
    intros [|j] Hj; simpl; [congruence|]. apply Hfirst. lia.
Qed.

Lemma first_index_from_range i l x :
  0 <= i ->
  first_index_from i l x = -1 \/
  i <= first_index_from i l x < i + Z.of_nat (length l).
Proof.
  intros Hi. destruct (decide (x ∈ l)) as [Hx|Hx].
  - right. destruct (first_index_from_present i l x Hx) as (k & -> & Hk & _).
    apply lookup_lt_Some in Hk. lia.
  - left. by apply first_index_from_absent.
Qed.
End first_index.

Lemma TransitionToIdx_absent a c :
  TransitionToIdx a c = -1 <-> ~ in_alphabet a c.
Proof.
  unfold TransitionToIdx, in_alphabet. split.
  - intros Hr Hin.
    destruct (first_index_from_present 0 (transitions a) c Hin) as (k & Hk & _).
    lia.
  - apply first_index_from_absent.
Qed.

Lemma TransitionToIdx_range a c :
  in_alphabet a c -> 0 <= TransitionToIdx a c < transitionsNum a.
Proof.
  intros Hin. unfold TransitionToIdx, transitionsNum.
  destruct (first_index_from_present 0 (transitions a) c Hin) as (k & -> & Hk & _).
  apply lookup_lt_Some in Hk. lia.
Qed.

Lemma StateToIdx_range a s :
  StateToIdx a s = -1 \/ 0 <= StateToIdx a s < statesNum a.
Proof.
  unfold StateToIdx, statesNum.
  destruct (first_index_from_range 0 (statesNames a) s) as [H|H]; [lia|by left|right; lia].
Qed.

(** ** Unfolding the loops *)

Lemma ReadWords_step str :
  ReadWords str =
    match ReadWord str with
    | None => []
    | Some (word, rest) => word :: ReadWords rest
    end.
Proof.
  funelim (ReadWords str);
    match goal with E : ReadWord _ = _ |- _ => by rewrite E end.
Qed.

Lemma GetLine_loop_step f :
  GetLine_loop f =
    match fgets MAX_LINE_LENGTH f with
    | (None, f') => (None, f')
    | (Some line, f') =>
        if negb (feof f') && skipped_line line
        then GetLine_loop f' else (Some line, f')
    end.
Proof.
  funelim (GetLine_loop f);
    match goal with E : fgets _ _ = _ |- _ => by rewrite E end.
Qed.

Lemma ReadLines_step f :
  ReadLines f =
    match GetLine f with
    | (None, _) => []
    | (Some line, f') => line :: ReadLines f'
    end.
Proof.
  funelim (ReadLines f);
    match goal with E : GetLine _ = _ |- _ => by rewrite E end.
Qed.

(** ** The line source on text files *)

Lemma fgets_chars_line k l rest :
  NL ∉ l -> (length l < k)%nat ->
  fgets_chars k (l ++ NL :: rest) = (l ++ [NL], mkFILE rest false).
Proof.
  revert k. induction l as [|c l IH]; intros k Hnl Hk; simpl in *.
  - destruct k; [lia|]. reflexivity.
  - apply not_elem_of_cons in Hnl as [Hc Hnl].
    destruct k; [lia|]. simpl. rewrite decide_False by done.
    rewrite IH; [done|done|lia].
Qed.

Lemma fgets_chars_last k l :
  NL ∉ l -> (length l < k)%nat -> fgets_chars k l = (l, mkFILE [] true).
Proof.
  revert k. induction l as [|c l IH]; intros k Hnl Hk; simpl in *.
  - destruct k; [lia|done].
  - apply not_elem_of_cons in Hnl as [Hc Hnl].
    destruct k; [lia|]. simpl. rewrite decide_False by done.
    rewrite IH; [done|done|lia].
Qed.

Lemma fgets_line n l rest :
  NL ∉ l -> (length l + 1 < n)%nat ->
  fgets n (mkFILE (l ++ NL :: rest) false) = (Some (l ++ [NL]), mkFILE rest false).
Proof.
  intros Hnl Hn. unfold fgets. simpl.
  destruct (l ++ NL :: rest) as [|c d] eqn:E; [by destruct l|].
  rewrite <- E, fgets_chars_line; [done|done|lia].
Qed.

Lemma fgets_last n l :
  l <> [] -> NL ∉ l -> (length l + 1 < n)%nat ->
  fgets n (mkFILE l false) = (Some l, mkFILE [] true).
Proof.
  intros Hl Hnl Hn. unfold fgets. simpl.
  destruct l as [|c d] eqn:E; [done|].
  rewrite fgets_chars_last; [done|done|lia].
Qed.

Lemma c_str_no_NUL l : NUL ∉ l -> c_str l = l.
Proof.
  induction l as [|c l IH]; [done|]. intros [Hc Hl]%not_elem_of_cons. simpl.
  rewrite decide_False by done. by rewrite IH.
Qed.

Lemma skipped_line_snoc l c : skipped_line l = false -> skipped_line (l ++ [c]) = false.
Proof. by destruct l. Qed.

(** A plain line followed by its newline is returned whole, without the
    newline, and the stream is left after the newline. *)
Lemma GetLine_plain_line l rest :
  plain_line l ->
  GetLine (mkFILE (l ++ NL :: rest) false) = (Some l, mkFILE rest false).
Proof.
  intros (Hskip & Hnl & Hnul & Hlen). unfold GetLine.
  rewrite GetLine_loop_step, fgets_line by done. simpl.
  rewrite skipped_line_snoc by done. simpl.
  rewrite c_str_no_NUL.
  2:{ rewrite elem_of_app, list_elem_of_singleton. by intros [?|?]. }
  rewrite length_app. simpl. rewrite decide_False.
  2:{ destruct l; [done|]. simpl. lia. }
  rewrite last_snoc, decide_True by done. by rewrite removelast_last.
Qed.

(** What is left of a stream after its last newline is read by [fgets]
    up to the end of the file, and [GetLine] then returns NULL. *)
Lemma GetLine_unterminated last :
  NL ∉ last -> (length last + 1 < MAX_LINE_LENGTH)%nat ->
  GetLine (mkFILE last false) = (None, mkFILE [] true).
Proof.
  intros Hnl Hlen. unfold GetLine. rewrite GetLine_loop_step.
  destruct (decide (last = [])) as [->|Hne]; [done|].
  by rewrite fgets_last.
Qed.

Lemma ReadLines_text_unterminated lines last :
  Forall plain_line lines ->
  NL ∉ last -> (length last + 1 < MAX_LINE_LENGTH)%nat ->
  ReadLines (mkFILE (text lines ++ last) false) = lines.
Proof.
  intros Hlines Hnl Hlen. induction Hlines as [|l lines Hl _ IH]; simpl.
  - rewrite ReadLines_step. by rewrite GetLine_unterminated.
  - rewrite ReadLines_step. unfold text. simpl. rewrite <- !app_assoc. simpl.
    rewrite GetLine_plain_line by done. f_equal. exact IH.
Qed.

Lemma ReadLines_text lines :
  Forall plain_line lines -> ReadLines (mkFILE (text lines) false) = lines.
Proof.
  intros Hlines.
  rewrite <- (app_nil_r (text lines)).
  apply ReadLines_text_unterminated; [done|apply not_elem_of_nil|].
  simpl. unfold MAX_LINE_LENGTH. lia.
Qed.

(** ** The simulation engine *)

Lemma wrong_symbol_true a s :
  wrong_symbol a s = true <-> Exists (fun c => ~ in_alphabet a c) s.
Proof.
  induction s as [|c s IH]; simpl.
  - split; [done|]. by intros H%Exists_nil.
  - rewrite Exists_cons, <- IH, <- TransitionToIdx_absent.
    destruct (decide (TransitionToIdx a c = -1)) as [|Hc]; [by split; auto|].
    split; [by right|]. by intros [|].
Qed.

Lemma wrong_symbol_false a s :
  wrong_symbol a s = false <-> Forall (in_alphabet a) s.
Proof.
  rewrite <- not_true_iff_false, wrong_symbol_true, <- Forall_Exists_neg.
  apply Forall_proper; [|done]. intros c. split; [|by auto].
  intros Hnn. by destruct (decide (in_alphabet a c)).
Qed.

Lemma zlookup_Some {A} (l : list A) i x :
  zlookup l i = Some x <-> 0 <= i /\ l !! Z.to_nat i = Some x.
Proof.
  unfold zlookup. destruct (decide (i < 0)); [|by intuition lia].
  split; [done|]. intros [? _]. lia.
Qed.

Lemma zlookup_in_bounds {A} (l : list A) i :
  0 <= i < Z.of_nat (length l) -> exists x, zlookup l i = Some x /\ x ∈ l.
Proof.
  intros Hi. destruct (lookup_lt_is_Some_2 l (Z.to_nat i)) as [x Hx]; [lia|].
  exists x. split; [apply zlookup_Some; split; [lia|done]|].
  by apply list_elem_of_lookup_2 in Hx.
Qed.

(** In a well-formed automaton every cell of the table addressed by a state
    and a symbol exists, and holds -1 or a state. *)
Lemma table_get_well_formed a q j :
  well_formed a ->
  0 <= q < statesNum a -> 0 <= j < transitionsNum a ->
  exists next, table_get (transitionTable a) q j = Some next /\
               (next = -1 \/ 0 <= next < statesNum a).
Proof.
  intros Hwf Hq Hj. unfold table_get.
  destruct (zlookup_in_bounds (transitionTable a) q) as (row & -> & Hrow).
  { rewrite (wf_table_length a Hwf). exact Hq. }
  pose proof (wf_table a Hwf) as Ht. unfold table_ok in Ht.
  rewrite Forall_forall in Ht. destruct (Ht row Hrow) as [Hlen Hcells].
  destruct (zlookup_in_bounds row j) as (next & -> & Hnext).
  { rewrite Hlen. exact Hj. }
  exists next. split; [done|]. rewrite Forall_forall in Hcells. by apply Hcells.
Qed.

Lemma spec_delta_well_formed a q c :
  well_formed a -> 0 <= q < statesNum a -> in_alphabet a c ->
  exists next, table_get (transitionTable a) q (TransitionToIdx a c) = Some next /\
    ((next = -1 /\ spec_delta a q c = None) \/
     (0 <= next < statesNum a /\ spec_delta a q c = Some next)).
Proof.
  intros Hwf Hq Hc.
  destruct (table_get_well_formed a q (TransitionToIdx a c) Hwf Hq)
    as (next & Hget & Hnext); [by apply TransitionToIdx_range|].
  exists next. split; [done|]. unfold spec_delta. rewrite Hget.
  destruct (decide (next = -1)); [by left|right]. split; [lia|done].
Qed.

(** The second loop of [ProcessString] computes the fold of the
    specification and its verdict. *)
Lemma simulate_spec_fold a q s :
  well_formed a -> 0 <= q < statesNum a -> Forall (in_alphabet a) s ->
  simulate a q s =
    Some (match spec_fold a q s with
          | Some q' => if is_final a q' then 0 else 1
          | None => 1
          end).
Proof.
  intros Hwf. revert q. induction s as [|c s IH]; intros q Hq Hs; simpl.
  - unfold is_final.
    destruct (zlookup_in_bounds (finishState a) q) as (v & -> & _).
    { rewrite (wf_finish_length a Hwf). exact Hq. }
    destruct (decide (v <> 0)) as [Hv|Hv].
    + by rewrite bool_decide_eq_true_2.
    + by rewrite bool_decide_eq_false_2.
  - apply Forall_cons in Hs as [Hc Hs].
    destruct (spec_delta_well_formed a q c Hwf Hq Hc)
      as (next & -> & [[-> ->]|[Hnext ->]]).
    + rewrite bool_decide_eq_true_2; [done|by left].
    + rewrite bool_decide_eq_false_2; [by apply IH|lia].
Qed.

Lemma spec_fold_app a q s1 s2 :
  spec_fold a q (s1 ++ s2) =
    match spec_fold a q s1 with
    | Some q' => spec_fold a q' s2
    | None => None
    end.
Proof.
  revert q. induction s1 as [|c s1 IH]; intros q; simpl; [done|].
  destruct (spec_delta a q c); [apply IH|done].
Qed.

Lemma ProcessString_classify a s :
  well_formed a -> ProcessString a s = Some (verdict_code (classify a s)).
Proof.
  intros Hwf. unfold ProcessString, classify.
  destruct (wrong_symbol a s) eqn:Hw.
  - rewrite bool_decide_eq_false_2; [done|].
    rewrite <- wrong_symbol_false. congruence.
  - apply wrong_symbol_false in Hw. rewrite bool_decide_eq_true_2 by done.
    rewrite simulate_spec_fold; [|done|apply (wf_start a Hwf)|done].
    destruct (spec_fold a (startStateIndex a) s) as [q|]; [|done].
    by destruct (is_final a q).
Qed.

(** ** The loader establishes well-formedness *)

Lemma Step_bind_Next {A B} (m : Step A) (k : A -> Step B) y :
  (m ≫= k) = Next y -> exists x, m = Next x /\ k x = Next y.
Proof. destruct m as [x| |]; simpl; [|done..]. intros H. by exists x. Qed.

Lemma load_states_Next a words a' :
  load_states a words = Next a' ->
  a' = set_statesNames (statesNames a ++ words) a.
Proof.
  revert a. induction words as [|w words IH]; intros a; simpl.
  - intros [= <-]. rewrite app_nil_r. by destruct a.
  - destruct (decide (length (statesNames a) < MAX_STATES)%nat); [|done].
    intros H%IH. rewrite H. simpl. by rewrite <- app_assoc.
Qed.

(** The states loop stores every word, whatever the words are, as long as
    the array has room. *)
Lemma load_states_room a words :
  (length (statesNames a) + length words <= MAX_STATES)%nat ->
  load_states a words = Next (set_statesNames (statesNames a ++ words) a).
Proof.
  revert a. induction words as [|w words IH]; intros a Hlen; simpl.
  - rewrite app_nil_r. by destruct a.
  - simpl in Hlen. rewrite decide_True by lia.
    rewrite IH; simpl; [|rewrite length_app; simpl; lia].
    by rewrite <- app_assoc.
Qed.

Lemma load_symbols_Next a words a' :
  load_symbols a words = Next a' ->
  exists symbols, a' = set_transitions symbols a.
Proof.
  revert a. induction words as [|w words IH]; intros a; simpl.
  - intros [= <-]. exists (transitions a). by destruct a.
  - destruct (bool_decide _); [done|].
    destruct (decide (length (transitions a) < MAX_SYMBOLS)%nat); [|done].
    intros (symbols & ->)%IH. by exists symbols.
Qed.

Lemma load_finish_Next a words a' :
  load_finish a words = Next a' ->
  exists fin, a' = set_finishState fin a /\
              length fin = length (finishState a) /\
              (flags (finishState a) -> flags fin).
Proof.
  revert a. induction words as [|w words IH]; intros a; simpl.
  - intros [= <-]. exists (finishState a). by destruct a.
  - destruct (decide (StateToIdx a w = -1)); [done|].
    destruct (zlookup (finishState a) (StateToIdx a w)) as [v|]; [|done].
    destruct (decide (v = 1)); [done|].
    intros (fin & -> & Hlen & Hflags)%IH. exists fin. split; [done|].
    simpl in *. rewrite length_insert in Hlen. split; [done|].
    intros Hf. apply Hflags. apply Forall_insert; [done|by right].
Qed.

Lemma table_set_length t i j v : length (table_set t i j v) = length t.
Proof. unfold table_set. apply length_alter. Qed.

Lemma table_set_ok n m t i j v :
  table_ok n m t -> v = -1 \/ 0 <= v < n -> table_ok n m (table_set t i j v).
Proof.
  unfold table_ok, table_set. intros Ht Hv.
  apply Forall_alter; [done|]. intros row _ [Hlen Hcells].
  rewrite length_insert. split; [done|]. by apply Forall_insert.
Qed.

Lemma transition_line_Next a line a' :
  transition_line a line = Next a' ->
  exists i j k,
    resolve_line (statesNames a) (transitions a) line = Some (i, j, k) /\
    table_get (transitionTable a) i j = Some (-1) /\
    a' = set_transitionTable (table_set (transitionTable a) i j k) a.
Proof.
  unfold transition_line, resolve_line, StateToIdx, TransitionToIdx.
  destruct (sscanf3 line) as [[[from|] [symb|]] [to|]]; try done.
  destruct (bool_decide _); [done|].
  destruct (table_get _ _ _) as [old|] eqn:Hget; [|done].
  destruct (decide (old <> -1)) as [|Hold]; [done|].
  intros [= <-]. eexists _, _, _. split; [done|]. split; [|done].
  rewrite Hget. f_equal. lia.
Qed.

Lemma resolve_line_range names symbols line i j k :
  resolve_line names symbols line = Some (i, j, k) ->
  0 <= i < Z.of_nat (length names) /\
  0 <= j < Z.of_nat (length symbols) /\
  0 <= k < Z.of_nat (length names).
Proof.
  unfold resolve_line.
  destruct (sscanf3 line) as [[[from|] [symb|]] [to|]]; try done.
  destruct (bool_decide _) eqn:Hbad; [done|]. intros [= <- <- <-].
  apply bool_decide_eq_false in Hbad.
  pose proof (first_index_from_range 0 names from).
  pose proof (first_index_from_range 0 names to).
  pose proof (first_index_from_range 0 symbols (first_char symb)).
  lia.
Qed.

Lemma load_transitions_Next a lines a' :
  load_transitions a lines = Next a' ->
  exists t, a' = set_transitionTable t a /\
            length t = length (transitionTable a) /\
            (table_ok (statesNum a) (length (transitions a)) (transitionTable a) ->
             table_ok (statesNum a) (length (transitions a)) t).
Proof.
  revert a. induction lines as [|line lines IH]; intros a; simpl.
  - intros [= <-]. exists (transitionTable a). by destruct a.
  - intros (a1 & Hline & Hrest)%Step_bind_Next.
    apply transition_line_Next in Hline as (i & j & k & Hres & _ & ->).
    apply IH in Hrest as (t & -> & Hlen & Hok). exists t. split; [done|].
    simpl in *. rewrite table_set_length in Hlen. split; [done|].
    intros Ht. apply Hok. apply table_set_ok; [done|].
    apply resolve_line_range in Hres. right. unfold statesNum. simpl. lia.
Qed.

Lemma table_ok_fresh n rows cols : table_ok n cols (replicate rows (replicate cols (-1))).
Proof.
  apply Forall_replicate. split; [apply length_replicate|].
  apply Forall_replicate. by left.
Qed.

(** The header stages leave an automaton whose start state is a state,
    whose finish flags are 0 or 1, and whose table is empty. *)
Lemma LoadHeader_well_formed a0 file a f :
  LoadHeader a0 file = Next (a, f) -> well_formed a.
Proof.
  unfold LoadHeader. destruct file as [content|]; [|done].
  intros H.
  apply Step_bind_Next in H as ([initialState f1] & _ & H).
  apply Step_bind_Next in H as ([states f2] & _ & H).
  apply Step_bind_Next in H as (a1 & Hstates & H).
  destruct (decide _) as [|Hstart]; [done|].
  apply Step_bind_Next in H as ([symbols f3] & _ & H).
  apply Step_bind_Next in H as (a2 & Hsymbols & H).
  apply Step_bind_Next in H as ([finishStates f4] & _ & H).
  apply Step_bind_Next in H as (a3 & Hfinish & H).
  injection H as <- <-.
  apply load_symbols_Next in Hsymbols as (symbols' & ->).
  apply load_finish_Next in Hfinish as (fin & -> & Hlen & Hflags).
  simpl in *. rewrite length_replicate in Hlen.
  split; simpl.
  - unfold statesNum. simpl.
    destruct (StateToIdx_range a1 initialState) as [?|?]; [done|].
    by unfold statesNum in *.
  - done.
  - apply Hflags. apply Forall_replicate. by left.
  - apply length_replicate.
  - apply table_ok_fresh.
Qed.

Theorem LoadAutomaton_well_formed a0 file a :
  LoadAutomaton a0 file = Next a -> well_formed a.
Proof.
  unfold LoadAutomaton. intros H.
  apply Step_bind_Next in H as ([a5 f5] & Hheader & H).
  apply LoadHeader_well_formed in Hheader as [Hstart Hflen Hfval Htlen Ht].
  apply load_transitions_Next in H as (t & -> & Hlen & Hok).
  split; simpl; [done|done|done|congruence|by apply Hok].
Qed.

Lemma loaded_well_formed a : loaded a -> well_formed a.
Proof. intros (a0 & content & H). by eapply LoadAutomaton_well_formed. Qed.

Lemma even_ones_loaded : loaded even_ones_automaton.
Proof. exists blank, even_ones. vm_compute. reflexivity. Qed.

(** C1.  An input string with a character outside the alphabet of the
    automaton is classified as an invalid symbol (code 2), never as
    accepted or rejected, wherever the character stands in the string and
    whatever the transitions before it are: the scan of lines 305-307 runs
    before the simulation.  This holds for every automaton, loaded ones
    included. *)
Theorem ProcessString_invalid_symbol (a : Automaton) (pre post : cstring) (c : ascii) :
  ~ in_alphabet a c ->
  ProcessString a (pre ++ c :: post) = Some (verdict_code InvalidSymbol) /\
  ProcessString a (pre ++ c :: post) <> Some (verdict_code Accepted) /\
  ProcessString a (pre ++ c :: post) <> Some (verdict_code Rejected).
Proof.
  intros Hc.
  assert (wrong_symbol a (pre ++ c :: post) = true) as Hw.
  { apply wrong_symbol_true, Exists_app. right. by apply Exists_cons_hd. }
  unfold ProcessString. rewrite Hw. by repeat split.
Qed.

Lemma ProcessString_invalid_symbol_witness :
  ~ in_alphabet even_ones_automaton "2"%char /\
  ProcessString even_ones_automaton (cs "10" ++ "2"%char :: cs "1")
  = Some (verdict_code InvalidSymbol).
Proof.
  assert (~ in_alphabet even_ones_automaton "2"%char) as H.
  { apply TransitionToIdx_absent. reflexivity. }
  split; [exact H|].
  exact (proj1 (ProcessString_invalid_symbol even_ones_automaton (cs "10") (cs "1") _ H)).
Defined.

(** C2.  On the empty input string a loaded automaton answers accepted
    when its start state is a final state and rejected otherwise, and the
    answer does not depend on the transition table: no transition is
    looked up. *)
Theorem ProcessString_empty (a : Automaton) :
  loaded a ->
  (ProcessString a [] = Some (verdict_code Accepted) <->
   is_final a (startStateIndex a) = true) /\
  (ProcessString a [] = Some (verdict_code Rejected) <->
   is_final a (startStateIndex a) = false) /\
  (forall t, ProcessString (set_transitionTable t a) [] = ProcessString a []).
Proof.
  intros Hwf%loaded_well_formed.
  assert (forall t, ProcessString (set_transitionTable t a) [] = ProcessString a [])
    as Htable by done.
  revert Htable.
  assert (ProcessString a [] =
          Some (if is_final a (startStateIndex a) then 0 else 1)) as ->.
  { rewrite ProcessString_classify by done. unfold classify.
    rewrite bool_decide_eq_true_2 by constructor. simpl.
    by destruct (is_final a (startStateIndex a)). }
  destruct (is_final a (startStateIndex a)); simpl; repeat split; try done.
Qed.

Lemma ProcessString_empty_witness :
  loaded even_ones_automaton /\
  (ProcessString even_ones_automaton [] = Some (verdict_code Accepted) <->
   is_final even_ones_automaton (startStateIndex even_ones_automaton) = true).
Proof.
  split; [exact even_ones_loaded|].
  exact (proj1 (ProcessString_empty even_ones_automaton even_ones_loaded)).
Defined.

(** C3.  For a loaded automaton and an input made of alphabet characters
    only: when the fold from the start state reaches, after a prefix of the
    input, a state with no transition defined on the next character, the
    result is rejected (code 1), an ordinary result of the function. *)
Theorem ProcessString_undefined_transition
    (a : Automaton) (pre post : cstring) (c : ascii) (q : Z) :
  loaded a ->
  Forall (in_alphabet a) (pre ++ c :: post) ->
  spec_fold a (startStateIndex a) pre = Some q ->
  spec_delta a q c = None ->
  ProcessString a (pre ++ c :: post) = Some (verdict_code Rejected).
Proof.
  intros Hwf%loaded_well_formed Hs Hpre Hc.
  rewrite ProcessString_classify by done. f_equal. unfold classify.
  rewrite bool_decide_eq_true_2 by done.
  rewrite spec_fold_app, Hpre. simpl. by rewrite Hc.
Qed.

Lemma partial_dfa_loaded : loaded partial_dfa_automaton.
Proof. exists blank, partial_dfa. vm_compute. reflexivity. Qed.

Lemma ProcessString_undefined_transition_witness :
  loaded partial_dfa_automaton /\
  Forall (in_alphabet partial_dfa_automaton) (cs "a" ++ "b"%char :: cs "a") /\
  spec_fold partial_dfa_automaton (startStateIndex partial_dfa_automaton) (cs "a")
  = Some 1 /\
  spec_delta partial_dfa_automaton 1 "b"%char = None /\
  ProcessString partial_dfa_automaton (cs "a" ++ "b"%char :: cs "a")
  = Some (verdict_code Rejected).
Proof.
  assert (Forall (in_alphabet partial_dfa_automaton) (cs "a" ++ "b"%char :: cs "a"))
    as Hs by (apply wrong_symbol_false; reflexivity).
  split; [exact partial_dfa_loaded|]. split; [exact Hs|].
  split; [reflexivity|]. split; [reflexivity|].
  exact (ProcessString_undefined_transition partial_dfa_automaton (cs "a") (cs "a")
           "b"%char 1 partial_dfa_loaded Hs eq_refl eq_refl).
Defined.

(** C4.  For a loaded automaton and an input made of alphabet characters
    only, [ProcessString] returns a result, which is accepted or rejected
    and never an invalid symbol; it is the verdict of the specification,
    and it is accepted exactly when the fold over the whole input goes
    through defined transitions only and ends in a final state. *)
Theorem ProcessString_alphabet_only (a : Automaton) (s : cstring) :
  loaded a ->
  Forall (in_alphabet a) s ->
  ProcessString a s = Some (verdict_code (classify a s)) /\
  (ProcessString a s = Some (verdict_code Accepted) \/
   ProcessString a s = Some (verdict_code Rejected)) /\
  (ProcessString a s = Some (verdict_code Accepted) <->
   exists q, spec_fold a (startStateIndex a) s = Some q /\ is_final a q = true).
Proof.
  intros Hwf%loaded_well_formed Hs.
  rewrite ProcessString_classify by done. split; [done|].
  unfold classify. rewrite bool_decide_eq_true_2 by done.
  destruct (spec_fold a (startStateIndex a) s) as [q|].
  - destruct (is_final a q) eqn:Hq; simpl.
    + split; [by left|]. split; [by exists q|done].
    + split; [by right|]. split; [done|]. intros (q' & [= <-] & ?). congruence.
  - split; [by right|]. split; [done|]. by intros (q' & ? & _).
Qed.

(** The driver loop, for a well-formed automaton, prints a verdict for
    every line and never the line of the fourth [case]. *)
Lemma process_lines_well_formed a lines :
  well_formed a ->
  exists out, process_lines a lines = Some out /\
              forall line, UNKNOWN_ERROR line ∉ out.
Proof.
  intros Hwf. induction lines as [|l lines (out & IH & Hout)]; simpl.
  - exists []. split; [done|]. intros line. apply not_elem_of_nil.
  - rewrite ProcessString_classify, IH by done.
    eexists. split; [done|]. intros line [H|H]%elem_of_app; [|by eapply Hout].
    destruct (classify a l); vm_compute in H;
      apply list_elem_of_singleton in H; discriminate H.
Qed.

(** C10.  For a loaded automaton [ProcessString] returns, on every input
    string, one of 0, 1 and 2; the loop of [main] therefore prints a verdict
    for every line and never reaches the case of result 3. *)
Theorem ProcessString_result_codes (a : Automaton) :
  loaded a ->
  (forall s, exists res, ProcessString a s = Some res /\
                         (res = 0 \/ res = 1 \/ res = 2)) /\
  (forall lines, exists out, process_lines a lines = Some out /\
                             forall line, UNKNOWN_ERROR line ∉ out).
Proof.
  intros Hwf%loaded_well_formed. split.
  - intros s. rewrite ProcessString_classify by done.
    eexists. split; [done|]. destruct (classify a s); simpl; auto.
  - intros lines. by apply process_lines_well_formed.
Qed.

Lemma ProcessString_alphabet_only_witness :
  loaded even_ones_automaton /\
  Forall (in_alphabet even_ones_automaton) (cs "1011") /\
  ProcessString even_ones_automaton (cs "1011")
  = Some (verdict_code (classify even_ones_automaton (cs "1011"))).
Proof.
  assert (Forall (in_alphabet even_ones_automaton) (cs "1011"))
    as Hs by (apply wrong_symbol_false; reflexivity).
  split; [exact even_ones_loaded|]. split; [exact Hs|].
  exact (proj1 (ProcessString_alphabet_only even_ones_automaton (cs "1011")
                  even_ones_loaded Hs)).
Defined.

Lemma ProcessString_result_codes_witness :
  loaded even_ones_automaton /\
  exists res, ProcessString even_ones_automaton (cs "102") = Some res /\
              (res = 0 \/ res = 1 \/ res = 2).
Proof.
  split; [exact even_ones_loaded|].
  exact (proj1 (ProcessString_result_codes even_ones_automaton even_ones_loaded)
           (cs "102")).
Defined.

(** ** The line source and the tokenizer against their contracts *)

(** C5.  What the code does with a final line that has no terminator: the
    lines before it are produced, the final line is not.  [fgets] reaches
    the end of the file while reading it, which sets the end-of-file
    indicator, and [GetLine] tests the indicator (line 53) before it
    returns the buffer.  The same final line followed by a newline is
    produced. *)
Theorem ReadLines_unterminated_last_line (lines : list cstring) (last : cstring) :
  Forall plain_line lines -> plain_line last ->
  ReadLines (fopen (text lines ++ last)) = lines /\
  ReadLines (fopen (text lines ++ last ++ [NL])) = lines ++ [last].
Proof.
  intros Hlines (Hskip & Hnl & Hnul & Hlen). split.
  - by apply ReadLines_text_unterminated.
  - replace (text lines ++ last ++ [NL]) with (text (lines ++ [last])).
    + apply ReadLines_text, Forall_app. split; [done|].
      apply Forall_singleton. by repeat split.
    + unfold text. rewrite map_app, concat_app. simpl. by rewrite app_nil_r.
Qed.

Lemma ReadLines_unterminated_last_line_witness :
  Forall plain_line [cs "even"; cs "1 1"] /\ plain_line (cs "odd") /\
  ReadLines (fopen (text [cs "even"; cs "1 1"] ++ cs "odd")) = [cs "even"; cs "1 1"].
Proof.
  assert (Forall plain_line [cs "even"; cs "1 1"]) as H1
    by (apply (bool_decide_unpack _); vm_compute; reflexivity).
  assert (plain_line (cs "odd")) as H2
    by (apply (bool_decide_unpack _); vm_compute; reflexivity).
  split; [exact H1|]. split; [exact H2|].
  exact (proj1 (ReadLines_unterminated_last_line _ _ H1 H2)).
Defined.

Lemma skip_isspace_skip_spaces s : skip_isspace (skip_spaces s) = skip_isspace s.
Proof.
  induction s as [|c s IH]; [done|]. simpl.
  destruct (decide (c = SPACE)) as [->|Hc]; [by rewrite IH|done].
Qed.

Lemma ReadWord_leading_space line w rest :
  scan_s line = Some (w, rest) ->
  ReadWord (SPACE :: line) = Some (w, skip_spaces line).
Proof.
  intros Hscan. unfold ReadWord, sscanf1.
  change (scan_s (SPACE :: line)) with (scan_s line). by rewrite Hscan.
Qed.

(** C6.  What the code does with a line that starts with a space: its
    first token is produced twice.  The first call of [ReadWord] stores the
    token, but its first loop stops at once on the leading space, so the
    pointer it returns is the start of that same token. *)
Theorem ReadWords_leading_space (line w rest : cstring) :
  scan_s line = Some (w, rest) ->
  exists words, ReadWords (SPACE :: line) = w :: w :: words.
Proof.
  intros Hscan.
  rewrite ReadWords_step, (ReadWord_leading_space line w rest Hscan).
  rewrite ReadWords_step. unfold ReadWord, sscanf1, scan_s.
  rewrite skip_isspace_skip_spaces. unfold scan_s in Hscan.
  destruct (span_word (skip_isspace line)) as [[|c w'] r]; [done|].
  injection Hscan as <- <-. by eexists.
Qed.

Lemma ReadWords_leading_space_witness :
  scan_s (cs "a b") = Some (cs "a", cs " b") /\
  exists words, ReadWords (SPACE :: cs "a b") = cs "a" :: cs "a" :: words.
Proof.
  split; [reflexivity|].
  exact (ReadWords_leading_space (cs "a b") (cs "a") (cs " b") eq_refl).
Defined.

Example ReadWords_leading_space_tokens :
  ReadWords (cs " a b") = [cs "a"; cs "a"; cs "b"] /\
  spec_tokens (cs " a b") = [cs "a"; cs "b"].
Proof. split; reflexivity. Qed.

(** A tab separates tokens for [sscanf], but the loops of [ReadWord] only
    know the space: the tokens after a tab are lost. *)
Example ReadWords_tab_tokens :
  ReadWords [ascii_of_nat 97; ascii_of_nat 9; ascii_of_nat 98] = [cs "a"] /\
  spec_tokens [ascii_of_nat 97; ascii_of_nat 9; ascii_of_nat 98] = [cs "a"; cs "b"].
Proof. split; reflexivity. Qed.

Example ReadLines_unterminated_example :
  ReadLines (fopen (cs "even
odd")) = [cs "even"].
Proof. reflexivity. Qed.

(** ** The transition table *)

Lemma table_get_Some t i j v :
  table_get t i j = Some v <->
  0 <= i /\ 0 <= j /\
  exists row, t !! Z.to_nat i = Some row /\ row !! Z.to_nat j = Some v.
Proof.
  unfold table_get. split.
  - destruct (zlookup t i) as [row|] eqn:Hrow; [|done].
    intros Hv. apply zlookup_Some in Hrow as [? ?]. apply zlookup_Some in Hv as [? ?].
    eauto.
  - intros (Hi & Hj & row & Hrow & Hv).
    rewrite (proj2 (zlookup_Some t i row)) by done. by apply zlookup_Some.
Qed.

Lemma table_get_set_same t i j old v :
  table_get t i j = Some old -> table_get (table_set t i j v) i j = Some v.
Proof.
  intros (Hi & Hj & row & Hrow & Hold)%table_get_Some.
  apply table_get_Some. split; [done|]. split; [done|].
  exists (<[Z.to_nat j := v]> row). unfold table_set. split.
  - by rewrite list_lookup_alter_eq, Hrow.
  - apply list_lookup_insert_eq. by eapply lookup_lt_Some.
Qed.

Lemma table_get_set_other t i j v i' j' :
  0 <= i -> 0 <= j -> (i, j) <> (i', j') ->
  table_get (table_set t i j v) i' j' = table_get t i' j'.
Proof.
  intros Hi Hj Hne. unfold table_get, table_set, zlookup.
  destruct (decide (i' < 0)); [done|].
  destruct (decide (Z.to_nat i = Z.to_nat i')) as [Heq|Hrow].
  - rewrite Heq, list_lookup_alter_eq.
    destruct (t !! Z.to_nat i') as [row|]; simpl; [|done].
    destruct (decide (j' < 0)); [done|].
    apply list_lookup_insert_ne. intros Hjj. apply Hne. f_equal; lia.
  - by rewrite list_lookup_alter_ne.
Qed.

Lemma table_get_fresh rows cols i j :
  0 <= i < Z.of_nat rows -> 0 <= j < Z.of_nat cols ->
  table_get (replicate rows (replicate cols (-1))) i j = Some (-1).
Proof.
  intros Hi Hj. apply table_get_Some. split; [lia|]. split; [lia|].
  exists (replicate cols (-1)). split; apply lookup_replicate_2; lia.
Qed.

(** ** The transition loop *)

Lemma load_transitions_app a lines1 lines2 :
  load_transitions a (lines1 ++ lines2) =
  (a' ← load_transitions a lines1; load_transitions a' lines2).
Proof.
  revert a. induction lines1 as [|line lines1 IH]; intros a; simpl; [done|].
  destruct (transition_line a line) as [a1| |]; simpl; [apply IH|done..].
Qed.

(** One line of the loop, in terms of what the line resolves to. *)
Lemma transition_line_resolved a line i j k :
  resolve_line (statesNames a) (transitions a) line = Some (i, j, k) ->
  exists from symb to,
    sscanf3 line = (Some from, Some symb, Some to) /\
    k <> -1 /\
    transition_line a line =
      match table_get (transitionTable a) i j with
      | None => Undefined
      | Some old =>
          if decide (old <> -1) then Return1 (DuplicateTransition from symb to) a
          else Next (set_transitionTable (table_set (transitionTable a) i j k) a)
      end.
Proof.
  unfold resolve_line, transition_line, StateToIdx, TransitionToIdx.
  destruct (sscanf3 line) as [[[from|] [symb|]] [to|]]; try done.
  destruct (bool_decide _) eqn:Hbad; [done|]. intros [= <- <- <-].
  apply bool_decide_eq_false in Hbad.
  exists from, symb, to. split; [done|]. split; [tauto|done].
Qed.

(** A line accepted by the loop resolves, and fills an empty cell. *)
Lemma load_transitions_accepted a line lines a' :
  load_transitions a (line :: lines) = Next a' ->
  exists i j k,
    resolve_line (statesNames a) (transitions a) line = Some (i, j, k) /\
    table_get (transitionTable a) i j = Some (-1) /\
    load_transitions
      (set_transitionTable (table_set (transitionTable a) i j k) a) lines = Next a'.
Proof.
  simpl. intros (a1 & Hline & Hrest)%Step_bind_Next.
  apply transition_line_Next in Hline as (i & j & k & Hres & Hcell & ->).
  by exists i, j, k.
Qed.

(** A cell that holds a target is never written again. *)
Lemma load_transitions_keeps a lines a' i j v :
  load_transitions a lines = Next a' ->
  table_get (transitionTable a) i j = Some v -> v <> -1 ->
  table_get (transitionTable a') i j = Some v.
Proof.
  revert a. induction lines as [|line lines IH]; intros a; simpl.
  - by intros [= <-].
  - intros (i0 & j0 & k0 & _ & Hcell & Hrest)%load_transitions_accepted Hv Hne.
    apply (IH _ Hrest); [|done]. simpl.
    pose proof (proj1 (table_get_Some _ _ _ _) Hcell) as (Hi0 & Hj0 & _).
    rewrite table_get_set_other; [done|done|done|].
    intros [= -> ->]. congruence.
Qed.

(** Every line accepted by the loop is in the table at the end. *)
Lemma load_transitions_recorded a lines a' line i j k :
  load_transitions a lines = Next a' ->
  line ∈ lines ->
  resolve_line (statesNames a) (transitions a) line = Some (i, j, k) ->
  table_get (transitionTable a') i j = Some k.
Proof.
  revert a. induction lines as [|l lines IH]; intros a Hload Hin Hres.
  - by apply elem_of_nil in Hin.
  - pose proof Hload as (i0 & j0 & k0 & Hres0 & Hcell & Hrest)%load_transitions_accepted.
    apply elem_of_cons in Hin as [->|Hin].
    + rewrite Hres in Hres0. injection Hres0 as <- <- <-.
      apply (load_transitions_keeps _ _ _ _ _ _ Hrest).
      * simpl. by eapply table_get_set_same.
      * by destruct (transition_line_resolved a l i j k Hres)
          as (? & ? & ? & _ & ? & _).
    + by apply (IH _ Hrest Hin).
Qed.

(** The first line the loop refuses ends the load, with the struct as the
    lines before it left it. *)
Lemma load_transitions_refused a lines msg a' :
  load_transitions a lines = Return1 msg a' ->
  exists pre line post,
    lines = pre ++ line :: post /\
    load_transitions a pre = Next a' /\
    transition_line a' line = Return1 msg a'.
Proof.
  revert a. induction lines as [|l lines IH]; intros a; simpl; [done|].
  destruct (transition_line a l) as [a1|msg1 a1|] eqn:Hl; simpl; [| |done].
  - intros (pre & line & post & -> & Hpre & Hline)%IH.
    exists (l :: pre), line, post. split; [done|]. simpl. by rewrite Hl.
  - intros [= <- <-]. exists [], l, lines. split; [done|].
    assert (a1 = a) as ->; [|done].
    revert Hl. unfold transition_line.
    destruct (sscanf3 l) as [[[from|] [symb|]] [to|]]; try done.
    destruct (bool_decide _); [by intros [= _ <-]|].
    destruct (table_get _ _ _) as [old|]; [|done].
    destruct (decide (old <> -1)); [by intros [= _ <-]|done].
Qed.

(** ** Failed loads *)




Example twice_defined_message :
  LoadAutomaton blank (Some twice_defined)
  = Return1 (DuplicateTransition (cs "even") (cs "0") (cs "odd"))
      (mkAutomaton [cs "even"; cs "odd"] [1; 0] 0 (cs "01") [[0; 1]; [-1; -1]]).
Proof. vm_compute. reflexivity. Qed.

(** ** Successful loads *)

Lemma text_cons l lines : text (l :: lines) = l ++ NL :: text lines.
Proof. unfold text. simpl. by rewrite <- app_assoc. Qed.

Lemma need_line_plain msg a l rest :
  plain_line l ->
  need_line msg a (mkFILE (l ++ NL :: rest) false) = Next (l, mkFILE rest false).
Proof. intros Hl. unfold need_line. by rewrite GetLine_plain_line. Qed.

(** The symbols loop stores the first characters of the words when they
    are pairwise distinct. *)
Lemma load_symbols_distinct a words :
  NoDup (transitions a ++ map first_char words) ->
  (length (transitions a) + length words <= MAX_SYMBOLS)%nat ->
  load_symbols a words
  = Next (set_transitions (transitions a ++ map first_char words) a).
Proof.
  revert a. induction words as [|w words IH]; intros a Hnd Hlen; simpl in *.
  - rewrite app_nil_r. by destruct a.
  - rewrite bool_decide_eq_false_2.
    2:{ apply NoDup_app in Hnd as (_ & Hdisj & _). intros Hin.
        apply (Hdisj _ Hin). apply elem_of_cons. by left. }
    rewrite decide_True by lia.
    rewrite IH; simpl.
    + by rewrite <- app_assoc.
    + by rewrite <- app_assoc.
    + rewrite length_app. simpl. lia.
Qed.

Lemma zlookup_insert_ne {A} (l : list A) i j x :
  0 <= i -> i <> j -> zlookup (<[Z.to_nat i := x]> l) j = zlookup l j.
Proof.
  intros Hi Hne. unfold zlookup. destruct (decide (j < 0)); [done|].
  apply list_lookup_insert_ne. lia.
Qed.

Lemma zlookup_insert_eq {A} (l : list A) i x y :
  zlookup l i = Some y -> zlookup (<[Z.to_nat i := x]> l) i = Some x.
Proof.
  intros [Hi Hy]%zlookup_Some. apply zlookup_Some. split; [done|].
  apply list_lookup_insert_eq. by eapply lookup_lt_Some.
Qed.

(** A flag that is set stays set. *)
Lemma load_finish_keeps a words a' i :
  load_finish a words = Next a' ->
  zlookup (finishState a) i = Some 1 -> zlookup (finishState a') i = Some 1.
Proof.
  revert a. induction words as [|w words IH]; intros a; simpl.
  - by intros [= <-].
  - destruct (decide (StateToIdx a w = -1)); [done|].
    destruct (zlookup (finishState a) (StateToIdx a w)) as [v|] eqn:Hv; [|done].
    destruct (decide (v = 1)); [done|].
    intros Hrest Hi. apply (IH _ Hrest). simpl.
    destruct (decide (StateToIdx a w = i)) as [<-|Hne]; [congruence|].
    rewrite zlookup_insert_ne; [done| |done].
    by apply zlookup_Some in Hv as [? _].
Qed.

(** Every word of the finish line is marked at the index it resolves to. *)
Lemma load_finish_marks a words a' w :
  load_finish a words = Next a' -> w ∈ words ->
  zlookup (finishState a') (StateToIdx a w) = Some 1.
Proof.
  revert a. induction words as [|w0 words IH]; intros a Hload Hin.
  - by apply elem_of_nil in Hin.
  - simpl in Hload.
    destruct (decide (StateToIdx a w0 = -1)); [done|].
    destruct (zlookup (finishState a) (StateToIdx a w0)) as [v|] eqn:Hv; [|done].
    destruct (decide (v = 1)); [done|].
    apply elem_of_cons in Hin as [->|Hin].
    + apply (load_finish_keeps _ _ _ _ Hload). simpl. by eapply zlookup_insert_eq.
    + apply (IH _ Hload Hin).
Qed.

(** The finish loop accepts words that are state names and resolve to
    pairwise distinct indices not marked yet. *)
Lemma load_finish_distinct a words :
  length (finishState a) = length (statesNames a) ->
  Forall (fun w => w ∈ statesNames a) words ->
  NoDup (map (StateToIdx a) words) ->
  Forall (fun w => zlookup (finishState a) (StateToIdx a w) <> Some 1) words ->
  exists a', load_finish a words = Next a'.
Proof.
  revert a. induction words as [|w words IH]; intros a Hlen Hnames Hnd Hclear; simpl.
  - by exists a.
  - apply Forall_cons in Hnames as [Hw Hnames].
    apply Forall_cons in Hclear as [Hwc Hclear].
    apply NoDup_cons in Hnd as [Hfresh Hnd].
    destruct (first_index_from_present 0 (statesNames a) w Hw) as (k & Hk & Hlk & _).
    fold (StateToIdx a w) in Hk.
    rewrite decide_False by lia.
    destruct (zlookup_in_bounds (finishState a) (StateToIdx a w)) as (v & Hv & _).
    { rewrite Hlen, Hk. apply lookup_lt_Some in Hlk. lia. }
    rewrite Hv. rewrite decide_False by congruence.
    apply IH; simpl.
    + by rewrite length_insert.
    + done.
    + done.
    + rewrite Forall_forall in Hclear. apply Forall_forall. intros w' Hw'.
      change (StateToIdx (set_finishState _ a) w') with (StateToIdx a w').
      rewrite zlookup_insert_ne; [by apply Hclear|lia|].
      intros Heq. apply Hfresh. rewrite Heq. apply list_elem_of_fmap. by exists w'.
Qed.

(** The transition loop accepts lines that resolve to pairwise distinct
    (from, symbol) pairs whose cells are empty. *)
Lemma load_transitions_distinct a lines :
  Forall (fun l => is_Some (resolve_line (statesNames a) (transitions a) l)) lines ->
  NoDup (map (line_pair (statesNames a) (transitions a)) lines) ->
  (forall l i j k,
     l ∈ lines -> resolve_line (statesNames a) (transitions a) l = Some (i, j, k) ->
     table_get (transitionTable a) i j = Some (-1)) ->
  exists a', load_transitions a lines = Next a'.
Proof.
  revert a. induction lines as [|l lines IH]; intros a Hres Hnd Hempty; simpl.
  - by exists a.
  - apply Forall_cons in Hres as [[[[i j] k] Hl] Hres].
    apply NoDup_cons in Hnd as [Hfresh Hnd].
    destruct (transition_line_resolved a l i j k Hl) as (from & symb & to & _ & _ & ->).
    pose proof (Hempty l i j k (list_elem_of_here _ _) Hl) as Hcell.
    rewrite Hcell. rewrite decide_False by lia. simpl.
    apply IH; simpl; [done|done|].
    intros l' i' j' k' Hin' Hl'.
    apply table_get_Some in Hcell as Hpos.
    rewrite table_get_set_other; [|lia|lia|].
    + apply (Hempty l' i' j' k'); [by apply list_elem_of_further|done].
    + intros [= -> ->]. apply Hfresh. apply list_elem_of_fmap. exists l'.
      split; [|done]. unfold line_pair. by rewrite Hl, Hl'.
Qed.

(** C9.  A file in the format of the loader loads whether or not its
    states line repeats a name: no hypothesis below asks the names to be
    distinct.  Every word of the states line is kept as a state, and a name
    resolves to the index of its first occurrence wherever it is used: as
    the start state, in the finish line, and at both ends of a transition. *)
Theorem LoadAutomaton_duplicate_state_names
    (a0 : Automaton) (start statesLine symbolsLine finishLine : cstring)
    (transLines : list cstring) :
  let names := ReadWords statesLine in
  let symbols := map first_char (ReadWords symbolsLine) in
  Forall plain_line (start :: statesLine :: symbolsLine :: finishLine :: transLines) ->
  (length names <= MAX_STATES)%nat ->
  start ∈ names ->
  NoDup symbols ->
  (length symbols <= MAX_SYMBOLS)%nat ->
  Forall (fun w => w ∈ names) (ReadWords finishLine) ->
  NoDup (map (first_index_from 0 names) (ReadWords finishLine)) ->
  Forall (fun l => is_Some (resolve_line names symbols l)) transLines ->
  NoDup (map (line_pair names symbols) transLines) ->
  exists a,
    LoadAutomaton a0
      (Some (text (start :: statesLine :: symbolsLine :: finishLine :: transLines)))
      = Next a /\
    statesNames a = names /\
    (forall name, name ∈ names ->
       exists k, StateToIdx a name = Z.of_nat k /\ first_occurrence names name k) /\
    startStateIndex a = StateToIdx a start /\
    (forall w, w ∈ ReadWords finishLine ->
       zlookup (finishState a) (StateToIdx a w) = Some 1) /\
    (forall l i j k, l ∈ transLines ->
       resolve_line names symbols l = Some (i, j, k) ->
       table_get (transitionTable a) i j = Some k).
Proof.
  intros names symbols Hplain Hcap Hstart Hnd Hsymcap Hfin Hfinnd Htrans Htransnd.
  apply Forall_cons in Hplain as [Hl1 Hplain].
  apply Forall_cons in Hplain as [Hl2 Hplain].
  apply Forall_cons in Hplain as [Hl3 Hplain].
  apply Forall_cons in Hplain as [Hl4 Hplain].
  unfold LoadAutomaton, LoadHeader, fopen. rewrite !text_cons.
  rewrite need_line_plain by done. simpl.
  rewrite need_line_plain by done. simpl.
  rewrite load_states_room by exact Hcap. simpl. fold names.
  destruct (first_index_from_present 0 names start Hstart) as (ks & Hks & Hkfirst).
  change (StateToIdx (set_statesNames names (set_transitions [] (set_statesNames [] a0)))
            start) with (first_index_from 0 names start).
  rewrite decide_False by lia.
  rewrite need_line_plain by done. simpl.
  rewrite load_symbols_distinct; [|exact Hnd|].
  2:{ simpl. unfold symbols in Hsymcap. by rewrite length_map in Hsymcap. }
  simpl. fold symbols.
  rewrite need_line_plain by done. simpl.
  match goal with |- context [load_finish ?A ?W] =>
    destruct (load_finish_distinct A W) as [a4 Ha4] end.
  { simpl. apply length_replicate. }
  { exact Hfin. }
  { exact Hfinnd. }
  { apply Forall_forall. intros w _ [_ Hw]%zlookup_Some.
    by apply lookup_replicate in Hw as [? _]. }
  rewrite Ha4. simpl.
  pose proof (load_finish_Next _ _ _ Ha4) as (fin & Hfineq & _).
  pose proof (fun w => load_finish_marks _ _ _ w Ha4) as Hmarks.
  clear Ha4. subst a4. simpl in *.
  rewrite ReadLines_text by done.
  match goal with |- context [load_transitions ?A ?L] =>
    destruct (load_transitions_distinct A L) as [a6 Ha6] end.
  { exact Htrans. }
  { exact Htransnd. }
  { simpl. intros l i j k _ (Hi & Hj & _)%resolve_line_range.
    by apply table_get_fresh. }
  exists a6. split; [exact Ha6|].
  pose proof (load_transitions_Next _ _ _ Ha6) as (t & Ht & _).
  pose proof (fun l i j k => load_transitions_recorded _ _ _ l i j k Ha6) as Hrec.
  clear Ha6. subst a6. simpl in *.
  split; [done|]. split.
  { intros name Hname.
    destruct (first_index_from_present 0 names name Hname) as (k & Hk & Hfirst).
    exists k. split; [|exact Hfirst]. unfold StateToIdx. simpl. lia. }
  split; [done|]. split; [exact Hmarks|].
  intros l i j k Hl Hres. by apply (Hrec l).
Qed.

Lemma LoadAutomaton_duplicate_state_names_witness :
  Forall plain_line repeated_state /\
  (length (ReadWords (cs "p q p r")) <= MAX_STATES)%nat /\
  cs "q" ∈ ReadWords (cs "p q p r") /\
  NoDup (map first_char (ReadWords (cs "a b"))) /\
  ~ NoDup (ReadWords (cs "p q p r")) /\
  exists a,
    LoadAutomaton blank (Some (text repeated_state)) = Next a /\
    statesNames a = [cs "p"; cs "q"; cs "p"; cs "r"] /\
    StateToIdx a (cs "p") = 0.
Proof.
  assert (Forall plain_line repeated_state) as H1
    by (apply (bool_decide_unpack _); vm_compute; reflexivity).
  assert (length (ReadWords (cs "p q p r")) <= MAX_STATES)%nat as H2
    by (apply (bool_decide_unpack _); vm_compute; reflexivity).
  assert (cs "q" ∈ ReadWords (cs "p q p r")) as H3
    by (apply (bool_decide_unpack _); vm_compute; reflexivity).
  assert (NoDup (map first_char (ReadWords (cs "a b")))) as H4
    by (apply (bool_decide_unpack _); vm_compute; reflexivity).
  assert (length (map first_char (ReadWords (cs "a b"))) <= MAX_SYMBOLS)%nat as H5
    by (apply (bool_decide_unpack _); vm_compute; reflexivity).
  assert (Forall (fun w => w ∈ ReadWords (cs "p q p r")) (ReadWords (cs "q r"))) as H6
    by (apply (bool_decide_unpack _); vm_compute; reflexivity).
  assert (NoDup (map (first_index_from 0 (ReadWords (cs "p q p r")))
                   (ReadWords (cs "q r")))) as H7
    by (apply (bool_decide_unpack _); vm_compute; reflexivity).
  assert (Forall (fun l => is_Some (resolve_line (ReadWords (cs "p q p r"))
                                      (map first_char (ReadWords (cs "a b"))) l))
            [cs "q a p"; cs "p b r"]) as H8
    by (apply (bool_decide_unpack _); vm_compute; reflexivity).
  assert (NoDup (map (line_pair (ReadWords (cs "p q p r"))
                        (map first_char (ReadWords (cs "a b"))))
                   [cs "q a p"; cs "p b r"])) as H9
    by (apply (bool_decide_unpack _); vm_compute; reflexivity).
  assert (~ NoDup (ReadWords (cs "p q p r"))) as H10
    by (apply (bool_decide_unpack _); vm_compute; reflexivity).
  split; [exact H1|]. split; [exact H2|]. split; [exact H3|]. split; [exact H4|].
  split; [exact H10|].
  destruct (LoadAutomaton_duplicate_state_names blank (cs "q") (cs "p q p r")
              (cs "a b") (cs "q r") [cs "q a p"; cs "p b r"]
              H1 H2 H3 H4 H5 H6 H7 H8 H9) as (a & Hload & Hnames & Hidx & _).
  exists a. split; [exact Hload|]. split; [exact Hnames|].
  destruct (Hidx (cs "p")) as (k & Hk & Hfirst & Hbefore).
  { apply (bool_decide_unpack _); vm_compute; reflexivity. }
  rewrite Hk. destruct k as [|k]; [reflexivity|].
  exfalso. apply (Hbefore 0%nat); [lia|reflexivity].
Defined.

Example repeated_state_loaded :
  LoadAutomaton blank (Some (text repeated_state))
  = Next (mkAutomaton [cs "p"; cs "q"; cs "p"; cs "r"] [0; 1; 0; 1] 1 (cs "ab")
            [[-1; 3]; [0; -1]; [-1; -1]; [-1; -1]]).
Proof. vm_compute. reflexivity. Qed.

(** ** The scenarios of the specification *)

Example ReadWords_states_line : ReadWords (cs "even odd") = [cs "even"; cs "odd"].
Proof. reflexivity. Qed.

Example ReadWords_blank_line : ReadWords (cs "  ") = [].
Proof. reflexivity. Qed.

Example ReadLines_skips_comments :
  ReadLines (fopen (cs "# comment
even

odd
")) = [cs "even"; cs "odd"].
Proof. reflexivity. Qed.

Example load_even_ones :
  LoadAutomaton blank (Some even_ones) = Next even_ones_automaton.
Proof. vm_compute. reflexivity. Qed.

Example even_ones_verdicts :
  map (ProcessString even_ones_automaton) [cs ""; cs "11"; cs "1"; cs "102"]
  = [Some 0; Some 0; Some 1; Some 2].
Proof. vm_compute. reflexivity. Qed.

Example dead_end_verdict :
  (a ← LoadAutomaton blank (Some dead_end); Next (ProcessString a (cs "aaaa")))
  = Next (Some 1).
Proof. vm_compute. reflexivity. Qed.

Example even_ones_run :
  main blank (Some even_ones) (Some (cs "11
1
102
"))
  = Some (0, [ACCEPTED_LINE (cs "11"); REJECTED_LINE (cs "1"); WRONG_SYMBOL (cs "102")]).
Proof. vm_compute. reflexivity. Qed.

(** * Further properties *)

(** ** The resolvers *)

(** X1.  [StateToIdx] returns -1 exactly for a name that is not listed;
    for a listed name it returns the index of the first state with that
    name, and never [statesNum] or more. *)
Theorem StateToIdx_first_match (a : Automaton) (state : cstring) :
  (StateToIdx a state = -1 <-> state ∉ statesNames a) /\
  (state ∈ statesNames a ->
   exists k : nat, StateToIdx a state = Z.of_nat k /\
                   first_occurrence (statesNames a) state k) /\
  -1 <= StateToIdx a state < statesNum a.
Proof.
  unfold StateToIdx, statesNum. split; [|split].
  - split.
    + intros Hr Hin.
      destruct (first_index_from_present 0 (statesNames a) state Hin) as (k & Hk & _).
      lia.
    + apply first_index_from_absent.
  - intros Hin.
    destruct (first_index_from_present 0 (statesNames a) state Hin) as (k & Hk & Hfirst).
    exists k. split; [lia|exact Hfirst].
  - destruct (first_index_from_range 0 (statesNames a) state); lia.
Qed.

(** ** The tokenizer *)

Lemma span_word_no_space s w r :
  span_word s = (w, r) -> Forall (fun c => isspace c = false) w.
Proof.
  revert w r. induction s as [|c s IH]; intros w r; simpl.
  - by intros [= <- <-].
  - destruct (isspace c) eqn:Hc; [by intros [= <- <-]|].
    destruct (span_word s) as [w' r']. intros [= <- <-].
    constructor; [done|]. by eapply IH.
Qed.

Lemma scan_s_word s w r :
  scan_s s = Some (w, r) -> w <> [] /\ Forall (fun c => isspace c = false) w.
Proof.
  unfold scan_s. destruct (span_word (skip_isspace s)) as [[|c w'] r'] eqn:E; [done|].
  intros [= <- <-]. split; [done|]. by eapply span_word_no_space.
Qed.

Lemma ReadWord_word str w rest :
  ReadWord str = Some (w, rest) ->
  w <> [] /\ Forall (fun c => isspace c = false) w.
Proof.
  unfold ReadWord, sscanf1. destruct (scan_s str) as [[w' r]|] eqn:E; [|done].
  intros [= <- <-]. by eapply scan_s_word.
Qed.

(** X2.  Every word the tokenizer produces is non-empty and free of white
    space, and a line never yields more words than it has characters. *)
Theorem ReadWords_words (str : cstring) :
  Forall (fun w => w <> [] /\ Forall (fun c => isspace c = false) w) (ReadWords str) /\
  (length (ReadWords str) <= length str)%nat.
Proof.
  remember (length str) as n eqn:Hn.
  assert (length str <= n)%nat as Hle by lia. clear Hn.
  revert str Hle. induction n as [|n IH]; intros str Hle.
  - destruct str; [|simpl in Hle; lia]. rewrite ReadWords_step. by split.
  - rewrite ReadWords_step. destruct (ReadWord str) as [[w rest]|] eqn:E.
    + pose proof (ReadWord_advances _ _ _ E) as Hadv.
      destruct (IH rest) as [Hwords Hlen]; [lia|].
      split; [constructor; [by eapply ReadWord_word|done]|]. simpl. lia.
    + split; [constructor|simpl; lia].
Qed.

Lemma isspace_SPACE c : c = SPACE -> isspace c = true.
Proof. by intros ->. Qed.

Lemma skip_isspace_spaces_only s :
  spaces_only s -> skip_isspace s = skip_spaces s.
Proof.
  induction 1 as [|c s Hc Hs IH]; [done|]. simpl.
  destruct (decide (c = SPACE)) as [->|Hne]; [by rewrite IH|].
  destruct (isspace c); [by specialize (Hc eq_refl)|done].
Qed.

Lemma span_word_spaces_only s :
  spaces_only s -> snd (span_word s) = skip_to_space s.
Proof.
  induction 1 as [|c s Hc Hs IH]; [done|]. simpl.
  destruct (decide (c = SPACE)) as [->|Hne]; [done|].
  destruct (isspace c); [by specialize (Hc eq_refl)|].
  destruct (span_word s) as [w r]. exact IH.
Qed.

Lemma spaces_only_skip_spaces s : spaces_only s -> spaces_only (skip_spaces s).
Proof.
  induction 1 as [|c s Hc Hs IH]; [constructor|]. simpl.
  destruct (decide (c = SPACE)); [done|by constructor].
Qed.

Lemma spaces_only_skip_to_space s : spaces_only s -> spaces_only (skip_to_space s).
Proof.
  induction 1 as [|c s Hc Hs IH]; [constructor|]. simpl.
  destruct (decide (c = SPACE)); [by constructor|done].
Qed.

Lemma skip_spaces_first s : first_char (skip_spaces s) <> SPACE.
Proof.
  induction s as [|c s IH]; [done|]. simpl.
  by destruct (decide (c = SPACE)).
Qed.

(** The tokens of the specification, one word at a time. *)
Lemma spec_tokens_aux_span cur s :
  spec_tokens_aux cur s =
  (if decide (cur ++ fst (span_word s) = []) then [] else [cur ++ fst (span_word s)])
  ++ spec_tokens_aux [] (snd (span_word s)).
Proof.
  revert cur. induction s as [|c s IH]; intros cur; simpl.
  - rewrite !app_nil_r. by destruct (decide (cur = [])).
  - destruct (isspace c) eqn:Hc; simpl.
    + rewrite Hc, !app_nil_r. by destruct (decide (cur = [])).
    + rewrite IH. destruct (span_word s) as [w r]. simpl.
      by rewrite <- app_assoc.
Qed.

Lemma spec_tokens_aux_skip s :
  spec_tokens_aux [] (skip_isspace s) = spec_tokens_aux [] s.
Proof.
  induction s as [|c s IH]; [done|]. simpl.
  destruct (isspace c) eqn:Hc; [exact IH|]. simpl. by rewrite Hc.
Qed.

Lemma spec_tokens_step s :
  spec_tokens s =
  match scan_s s with
  | None => []
  | Some (w, r) => w :: spec_tokens r
  end.
Proof.
  unfold spec_tokens, scan_s. rewrite <- (spec_tokens_aux_skip s).
  rewrite spec_tokens_aux_span. simpl.
  destruct (span_word (skip_isspace s)) as [[|c w] r] eqn:E; simpl; [|done].
  destruct (skip_isspace s) as [|c s'] eqn:Es; simpl in E.
  - by injection E as <-.
  - destruct (isspace c) eqn:Hc.
    + exfalso. clear E. revert Es Hc. clear.
      induction s as [|d s IH]; simpl; [done|].
      destruct (isspace d) eqn:Hd; [exact IH|]. intros [= -> _]. congruence.
    + by destruct (span_word s').
Qed.

(** X3.  On a line that does not start with a space and whose only white
    space is the space character, the tokenizer produces exactly the tokens
    of the specification: each once, in order, runs of spaces collapsed, and
    nothing for trailing spaces. *)
Theorem ReadWords_spec_tokens (line : cstring) :
  spaces_only line -> first_char line <> SPACE ->
  ReadWords line = spec_tokens line.
Proof.
  remember (length line) as n eqn:Hn.
  assert (length line <= n)%nat as Hle by lia. clear Hn.
  revert line Hle. induction n as [|n IH]; intros line Hle Hsp Hfirst.
  - destruct line; [|simpl in Hle; lia]. by rewrite ReadWords_step.
  - rewrite ReadWords_step, spec_tokens_step. unfold ReadWord, sscanf1.
    destruct (scan_s line) as [[w r]|] eqn:E; [|done].
    assert (ReadWord line = Some (w, skip_spaces (skip_to_space line))) as Hrw
      by (unfold ReadWord, sscanf1; by rewrite E).
    pose proof (ReadWord_advances _ _ _ Hrw) as Hadv.
    f_equal.
    rewrite IH; [|lia| |apply skip_spaces_first].
    2:{ by apply spaces_only_skip_spaces, spaces_only_skip_to_space. }
    assert (r = skip_to_space line) as ->.
    { unfold scan_s in E. rewrite skip_isspace_spaces_only in E by done.
      assert (skip_spaces line = line) as Hline.
      { destruct line as [|c l]; [done|]. simpl in *. by rewrite decide_False. }
      rewrite Hline in E. pose proof (span_word_spaces_only line Hsp) as Hsnd.
      destruct (span_word line) as [[|c w'] r']; [done|].
      injection E as _ <-. exact Hsnd. }
    unfold spec_tokens.
    rewrite <- (spec_tokens_aux_skip (skip_to_space line)).
    rewrite skip_isspace_spaces_only by (by apply spaces_only_skip_to_space).
    rewrite <- (spec_tokens_aux_skip (skip_spaces _)).
    rewrite skip_isspace_spaces_only
      by (by apply spaces_only_skip_spaces, spaces_only_skip_to_space).
    reflexivity.
Qed.

Lemma ReadWords_spec_tokens_witness :
  spaces_only (cs "even  odd ") /\ first_char (cs "even  odd ") <> SPACE /\
  ReadWords (cs "even  odd ") = [cs "even"; cs "odd"].
Proof.
  assert (spaces_only (cs "even  odd ")) as H1
    by (apply (bool_decide_unpack _); vm_compute; reflexivity).
  assert (first_char (cs "even  odd ") <> SPACE) as H2 by discriminate.
  split; [exact H1|]. split; [exact H2|].
  exact (ReadWords_spec_tokens (cs "even  odd ") H1 H2).
Defined.

(** ** The line source *)

Lemma removelast_cons_ne {A} (x : A) l : l <> [] -> removelast (x :: l) = x :: removelast l.
Proof. by destruct l. Qed.

Lemma fgets_chars_shape k d l f :
  fgets_chars k d = (l, f) -> (length l <= k)%nat /\ NL ∉ removelast l.
Proof.
  revert d l f. induction k as [|k IH]; intros d l f; simpl.
  - intros [= <- <-]. split; [done|]. apply not_elem_of_nil.
  - destruct d as [|c d]; [intros [= <- <-]; split; [simpl; lia|apply not_elem_of_nil]|].
    destruct (decide (c = NL)).
    + intros [= <- <-]. split; [simpl; lia|apply not_elem_of_nil].
    + destruct (fgets_chars k d) as [l' f'] eqn:E. intros [= <- <-].
      destruct (IH _ _ _ E) as [Hlen Hnl]. split; [simpl; lia|].
      destruct l' as [|c' l']; [apply not_elem_of_nil|].
      rewrite removelast_cons_ne by done. by apply not_elem_of_cons.
Qed.

Lemma fgets_shape n f l f' :
  fgets n f = (Some l, f') -> (length l <= n - 1)%nat /\ NL ∉ removelast l.
Proof.
  unfold fgets. destruct (eof_ind f); [done|].
  destruct (unread f) as [|c d]; [done|].
  destruct (fgets_chars (n - 1) (c :: d)) as [l0 f0] eqn:E. intros [= <- <-].
  by eapply fgets_chars_shape.
Qed.

(** The buffer the do-while loop is left with was filled by [fgets], and
    unless the end of the file was hit it does not start a skipped line. *)
Lemma GetLine_loop_buffer f buf f' :
  GetLine_loop f = (Some buf, f') ->
  ((length buf <= MAX_LINE_LENGTH - 1)%nat /\ NL ∉ removelast buf) /\
  (feof f' = false -> skipped_line buf = false).
Proof.
  revert buf f'. funelim (GetLine_loop f); intros buf fo; [|discriminate].
  destruct (negb (feof f') && skipped_line line) eqn:Hc.
  - apply H.
  - intros [= <- <-]. split; [by eapply fgets_shape|].
    intros Hf. rewrite Hf in Hc. exact Hc.
Qed.

Lemma c_str_no_NUL_in buf : NUL ∉ c_str buf.
Proof.
  induction buf as [|c buf IH]; simpl; [apply not_elem_of_nil|].
  destruct (decide (c = NUL)); [apply not_elem_of_nil|].
  apply not_elem_of_cons. split; [congruence|done].
Qed.

Lemma c_str_length buf : (length (c_str buf) <= length buf)%nat.
Proof.
  induction buf as [|c buf IH]; simpl; [done|].
  destruct (decide (c = NUL)); simpl; lia.
Qed.

Lemma c_str_removelast buf : NL ∉ removelast buf -> NL ∉ removelast (c_str buf).
Proof.
  induction buf as [|c buf IH]; [done|]. simpl c_str.
  destruct (decide (c = NUL)); [intros _; apply not_elem_of_nil|].
  destruct buf as [|c' buf]; [intros _; apply not_elem_of_nil|].
  rewrite removelast_cons_ne by done. intros [Hc Hnl]%not_elem_of_cons.
  destruct (c_str (c' :: buf)) as [|d s] eqn:Es; [apply not_elem_of_nil|].
  rewrite removelast_cons_ne by done. apply not_elem_of_cons. split; [done|].
  by apply IH.
Qed.

Lemma c_str_first buf : first_char (c_str buf) = first_char buf.
Proof. destruct buf as [|c buf]; [done|]. simpl. by destruct (decide (c = NUL)) as [->|]. Qed.

Lemma removelast_last_eq {A} (l : list A) x :
  last l = Some x -> l = removelast l ++ [x].
Proof.
  induction l as [|y l IH]; [done|]. destruct l as [|z l].
  - by intros [= ->].
  - intros Hl. rewrite removelast_cons_ne by done. simpl. f_equal. by apply IH.
Qed.

Lemma not_in_removelast_last (l : cstring) :
  NL ∉ removelast l -> last l <> Some NL -> NL ∉ l.
Proof.
  intros Hnl Hlast Hin. destruct (last l) as [x|] eqn:El.
  - rewrite (removelast_last_eq l x El) in Hin.
    apply elem_of_app in Hin as [Hin|Hin%list_elem_of_singleton]; [done|congruence].
  - apply last_None in El. subst l. by apply elem_of_nil in Hin.
Qed.

(** X4.  A line returned by [GetLine] is never empty, never starts with
    the comment mark, holds no newline and no NUL, and is shorter than the
    buffer. *)
Theorem GetLine_returns (f : FILE) (line : cstring) (f' : FILE) :
  GetLine f = (Some line, f') ->
  line <> [] /\ skipped_line line = false /\ (NL ∉ line) /\ (NUL ∉ line) /\
  (length line < MAX_LINE_LENGTH)%nat.
Proof.
  unfold GetLine. destruct (GetLine_loop f) as [[buf|] f0] eqn:E; [|done].
  destruct (feof f0) eqn:Hf; [done|].
  apply GetLine_loop_buffer in E as [[Hlen Hnl] Hskip]. specialize (Hskip Hf).
  pose proof (c_str_no_NUL_in buf) as Hnul.
  pose proof (c_str_length buf) as Hcl.
  pose proof (c_str_removelast buf Hnl) as Hrl.
  pose proof (c_str_first buf) as Hfirst.
  destruct (c_str buf) as [|c s] eqn:Es; [done|].
  destruct s as [|c' s]; [done|].
  assert (skipped_line (c :: c' :: s) = false) as Hsk.
  { unfold skipped_line in *. simpl in *. by rewrite Hfirst. }
  destruct (decide (Z.of_nat (length (c :: c' :: s)) - 1 <= 0)); [done|].
  assert (length (c :: c' :: s) < MAX_LINE_LENGTH)%nat as Hlt
    by (unfold MAX_LINE_LENGTH in *; lia).
  destruct (decide (last (c :: c' :: s) = Some NL)) as [Hlast|Hlast];
    intros [= <- <-].
  - rewrite removelast_cons_ne in * by done.
    split; [done|]. split; [exact Hsk|]. split; [exact Hrl|]. split.
    + intros Hin. apply Hnul. rewrite (removelast_last_eq _ _ Hlast).
      rewrite removelast_cons_ne by done. apply elem_of_app. by left.
    + pose proof (removelast_last_eq _ _ Hlast) as Heq.
      apply (f_equal length) in Heq. rewrite length_app in Heq.
      rewrite removelast_cons_ne in Heq by done. simpl in *. lia.
  - split; [done|]. split; [exact Hsk|].
    split; [by apply not_in_removelast_last|]. by split.
Qed.

Lemma GetLine_returns_witness :
  GetLine (fopen (cs "# comment

even
odd
")) = (Some (cs "even"), mkFILE (cs "odd
") false) /\ cs "even" <> [].
Proof.
  assert (GetLine (fopen (cs "# comment

even
odd
")) = (Some (cs "even"), mkFILE (cs "odd
") false)) as H by (vm_compute; reflexivity).
  split; [exact H|]. exact (proj1 (GetLine_returns _ _ _ H)).
Defined.

(** A line that is passed over is read and dropped. *)
Lemma GetLine_passed_over l rest :
  passed_over_line l ->
  GetLine (mkFILE (l ++ NL :: rest) false) = GetLine (mkFILE rest false).
Proof.
  intros (Hskip & Hnl & Hlen). unfold GetLine.
  rewrite (GetLine_loop_step (mkFILE (l ++ NL :: rest) false)).
  rewrite fgets_line by done. simpl. by rewrite Hskip.
Qed.

Lemma plain_not_passed_over l : plain_line l -> ~ passed_over_line l.
Proof.
  intros (Hskip & _) (Hskip' & _). destruct l as [|c l]; [done|].
  unfold skipped_line in *. simpl in *. congruence.
Qed.

(** X5.  Reading back a text file in which every line, comment lines
    included, ends with a newline and has at most [MAX_LINE_LENGTH - 2]
    characters (so that it fits the buffer with its newline), each line
    being empty, or starting with the comment mark (or a NUL), or a content
    line free of NUL: the empty lines and the comment lines are skipped
    wherever they stand, and the content lines come back in order without
    their newline. *)
Theorem ReadLines_text_filter (lines : list cstring) :
  Forall (fun l => plain_line l \/ passed_over_line l) lines ->
  ReadLines (fopen (text lines)) = filter plain_line lines.
Proof.
  unfold fopen. induction 1 as [|l lines Hl _ IH].
  - by rewrite ReadLines_step.
  - rewrite text_cons. destruct Hl as [Hl|Hl].
    + rewrite ReadLines_step, GetLine_plain_line by done.
      rewrite filter_cons_True by done. by rewrite IH.
    + rewrite ReadLines_step, GetLine_passed_over by done.
      rewrite filter_cons_False by (intros Hp; by apply (plain_not_passed_over l)).
      rewrite <- IH. by rewrite (ReadLines_step (mkFILE (text lines) false)).
Qed.

Lemma ReadLines_text_filter_witness :
  Forall (fun l => plain_line l \/ passed_over_line l)
    [cs "# automaton"; cs "even"; cs ""; cs "even odd"] /\
  ReadLines (fopen (text [cs "# automaton"; cs "even"; cs ""; cs "even odd"]))
  = [cs "even"; cs "even odd"].
Proof.
  assert (Forall (fun l => plain_line l \/ passed_over_line l)
            [cs "# automaton"; cs "even"; cs ""; cs "even odd"]) as H
    by (apply (bool_decide_unpack _); vm_compute; reflexivity).
  split; [exact H|].
  exact (ReadLines_text_filter _ H).
Defined.

Lemma fgets_chars_full k d :
  (k <= length d)%nat -> NL ∉ take k d ->
  fgets_chars k d = (take k d, mkFILE (drop k d) false).
Proof.
  revert d. induction k as [|k IH]; intros d Hlen Hnl; [by rewrite drop_0|].
  destruct d as [|c d]; [simpl in Hlen; lia|]. simpl in *.
  apply not_elem_of_cons in Hnl as [Hc Hnl].
  rewrite decide_False by done. rewrite IH; [done|lia|done].
Qed.

(** X6.  One call of [GetLine] on a stream with the end-of-file indicator
    clear whose unread part starts with at least [MAX_LINE_LENGTH - 1]
    characters free of newline and NUL, the first of them not starting a
    skipped line: the call returns exactly these [MAX_LINE_LENGTH - 1]
    characters as a line and leaves the stream right after them, the
    end-of-file indicator clear. *)
Theorem GetLine_long_line (d : list ascii) :
  (MAX_LINE_LENGTH - 1 <= length d)%nat ->
  NL ∉ take (MAX_LINE_LENGTH - 1) d ->
  NUL ∉ take (MAX_LINE_LENGTH - 1) d ->
  skipped_line d = false ->
  GetLine (mkFILE d false)
  = (Some (take (MAX_LINE_LENGTH - 1) d), mkFILE (drop (MAX_LINE_LENGTH - 1) d) false).
Proof.
  intros Hlen Hnl Hnul Hskip.
  assert (2 <= MAX_LINE_LENGTH - 1)%nat as Hk by (unfold MAX_LINE_LENGTH; lia).
  unfold GetLine. rewrite GetLine_loop_step. unfold fgets. cbn [eof_ind unread].
  remember (MAX_LINE_LENGTH - 1)%nat as k eqn:Ek. clear Ek.
  destruct d as [|c d]; [simpl in Hlen; lia|].
  rewrite fgets_chars_full by done.
  destruct k as [|k]; [lia|]. cbn [take drop feof eof_ind negb andb].
  assert (skipped_line (c :: take k d) = false) as -> by exact Hskip.
  cbn [feof eof_ind]. rewrite c_str_no_NUL by exact Hnul.
  assert (length (c :: take k d) = S k) as Hl.
  { cbn [length]. rewrite length_take. simpl in Hlen. lia. }
  rewrite Hl. rewrite decide_False by lia.
  rewrite decide_False; [done|].
  intros Hlast. apply Hnl. cbn [take].
  rewrite (removelast_last_eq _ _ Hlast). apply elem_of_app. right.
  by apply list_elem_of_singleton.
Qed.

Lemma GetLine_long_line_witness :
  (MAX_LINE_LENGTH - 1 <= length (replicate 5000 "a"%char))%nat /\
  GetLine (mkFILE (replicate 5000 "a"%char) false)
  = (Some (take (MAX_LINE_LENGTH - 1) (replicate 5000 "a"%char)),
     mkFILE (drop (MAX_LINE_LENGTH - 1) (replicate 5000 "a"%char)) false).
Proof.
  assert (MAX_LINE_LENGTH - 1 <= length (replicate 5000 "a"%char))%nat as H1
    by (apply (bool_decide_unpack _); vm_compute; reflexivity).
  assert (NL ∉ take (MAX_LINE_LENGTH - 1) (replicate 5000 "a"%char)) as H2
    by (apply (bool_decide_unpack _); vm_compute; reflexivity).
  assert (NUL ∉ take (MAX_LINE_LENGTH - 1) (replicate 5000 "a"%char)) as H3
    by (apply (bool_decide_unpack _); vm_compute; reflexivity).
  split; [exact H1|].
  exact (GetLine_long_line (replicate 5000 "a"%char) H1 H2 H3 eq_refl).
Defined.

(** ** The loader, line by line *)

Lemma bind_need_line {B} msg a f (k : cstring * FILE -> Step B) :
  (need_line msg a f ≫= k) =
  match GetLine f with
  | (Some line, f') => k (line, f')
  | (None, _) => Return1 msg a
  end.
Proof. unfold need_line. by destruct (GetLine f) as [[line|] f']. Qed.

Lemma LoadAutomaton_LoadLines a0 content :
  LoadAutomaton a0 (Some content) = LoadLines a0 (ReadLines (fopen content)).
Proof.
  unfold LoadAutomaton, LoadHeader, LoadLines.
  generalize (fopen content). intros f.
  set (a := set_transitions [] (set_statesNames [] a0)). clearbody a.
  rewrite (ReadLines_step f), bind_need_line.
  destruct (GetLine f) as [[initialState|] f1]; simpl; [|done].
  rewrite (ReadLines_step f1), bind_need_line.
  destruct (GetLine f1) as [[states|] f2]; simpl; [|done].
  destruct (load_states a (ReadWords states)) as [a1| |]; simpl; [|done..].
  destruct (decide _); [done|].
  rewrite (ReadLines_step f2), bind_need_line.
  destruct (GetLine f2) as [[symbols|] f3]; simpl; [|done].
  destruct (load_symbols _ _) as [a2| |]; simpl; [|done..].
  rewrite (ReadLines_step f3), bind_need_line.
  destruct (GetLine f3) as [[finishStates|] f4]; simpl; [|done].
  destruct (load_finish _ _) as [a3| |]; simpl; done.
Qed.

(** X7.  The loader sees its file only through the lines [GetLine]
    yields: two files with the same sequence of content lines, whatever
    their comments and blank lines, load to the same result. *)
Theorem LoadAutomaton_lines_only (a0 : Automaton) (content1 content2 : list ascii) :
  ReadLines (fopen content1) = ReadLines (fopen content2) ->
  LoadAutomaton a0 (Some content1) = LoadAutomaton a0 (Some content2).
Proof. intros Hlines. by rewrite !LoadAutomaton_LoadLines, Hlines. Qed.

Lemma LoadAutomaton_lines_only_witness :
  ReadLines (fopen (cs "# even number of ones
even

even odd
0 1
even
# transitions
even 0 even
even 1 odd
odd 0 odd
odd 1 even
")) = ReadLines (fopen even_ones) /\
  LoadAutomaton blank (Some (cs "# even number of ones
even

even odd
0 1
even
# transitions
even 0 even
even 1 odd
odd 0 odd
odd 1 even
")) = LoadAutomaton blank (Some even_ones).
Proof.
  assert (ReadLines (fopen (cs "# even number of ones
even

even odd
0 1
even
# transitions
even 0 even
even 1 odd
odd 0 odd
odd 1 even
")) = ReadLines (fopen even_ones)) as H by (vm_compute; reflexivity).
  split; [exact H|].
  exact (LoadAutomaton_lines_only blank _ _ H).
Defined.

(** X8.  A file with fewer than four content lines never loads; with none
    the message is the one about the initial state, with one the one about
    the set of states, and the struct is left as reset at entry. *)
Theorem LoadAutomaton_missing_lines (a0 : Automaton) (content : list ascii) :
  (length (ReadLines (fopen content)) < 4)%nat ->
  (forall a, LoadAutomaton a0 (Some content) <> Next a) /\
  (ReadLines (fopen content) = [] ->
   LoadAutomaton a0 (Some content)
   = Return1 CannotReadInitialState (set_transitions [] (set_statesNames [] a0))) /\
  (forall line, ReadLines (fopen content) = [line] ->
   LoadAutomaton a0 (Some content)
   = Return1 CannotReadStates (set_transitions [] (set_statesNames [] a0))).
Proof.
  rewrite LoadAutomaton_LoadLines. intros Hlen.
  split; [|split; [by intros ->|by intros line ->]].
  intros a. unfold LoadLines.
  destruct (ReadLines (fopen content)) as [|l1 [|l2 [|l3 [|l4 ls]]]];
    simpl in *; try done; try lia.
  - destruct (load_states _ _) as [a1| |]; simpl; [|done..].
    by destruct (decide _).
  - destruct (load_states _ _) as [a1| |]; simpl; [|done..].
    destruct (decide _); [done|].
    by destruct (load_symbols _ _) as [a2| |].
Qed.

Lemma LoadAutomaton_missing_lines_witness :
  (length (ReadLines (fopen (cs "# nothing but a comment
even
"))) < 4)%nat /\
  forall a, LoadAutomaton blank (Some (cs "# nothing but a comment
even
")) <> Next a.
Proof.
  assert (length (ReadLines (fopen (cs "# nothing but a comment
even
"))) < 4)%nat as H by (apply (bool_decide_unpack _); vm_compute; reflexivity).
  split; [exact H|].
  exact (proj1 (LoadAutomaton_missing_lines blank _ H)).
Defined.

(** ** The stages of the loader *)

Lemma ascii_NoDup_length (l : list ascii) : NoDup l -> (length l <= 256)%nat.
Proof.
  intros Hnd.
  assert (NoDup (nat_of_ascii <$> l)) as Hnd'.
  { assert (Inj eq eq nat_of_ascii) as Hinj.
    { intros x y Hxy.
      rewrite <- (ascii_nat_embedding x), <- (ascii_nat_embedding y). by f_equal. }
    by apply (NoDup_fmap_2 _). }
  assert (nat_of_ascii <$> l ⊆+ seq 0 256) as Hsub.
  { apply NoDup_submseteq; [done|]. intros n (c & -> & _)%list_elem_of_fmap.
    apply elem_of_seq. pose proof (nat_ascii_bounded c). lia. }
  apply submseteq_length in Hsub. by rewrite length_fmap, length_seq in Hsub.
Qed.

Lemma load_states_overflow a words :
  (length (statesNames a) <= MAX_STATES)%nat ->
  (MAX_STATES < length (statesNames a) + length words)%nat ->
  load_states a words = Undefined.
Proof.
  revert a. induction words as [|w words IH]; intros a Hle Hgt; simpl in *; [lia|].
  destruct (decide (length (statesNames a) < MAX_STATES)%nat) as [Hlt|Hge]; [|done].
  apply IH; simpl; rewrite length_app; simpl; lia.
Qed.

(** The states loop has no failure exit. *)
Lemma load_states_no_failure a words msg a' :
  load_states a words <> Return1 msg a'.
Proof.
  revert a. induction words as [|w words IH]; intros a; simpl; [done|].
  destruct (decide _); [apply IH|done].
Qed.

Lemma load_states_defined a words :
  load_states a words <> Undefined ->
  load_states a words = Next (set_statesNames (statesNames a ++ words) a).
Proof.
  destruct (load_states a words) as [a'|msg a'|] eqn:E; [| |done].
  - intros _. by rewrite (load_states_Next _ _ _ E).
  - by apply load_states_no_failure in E.
Qed.

(** The symbols loop: it stores the first characters while they are new,
    and stops at the first one seen before.  The array cannot overflow. *)
Lemma load_symbols_cases a words :
  NoDup (transitions a) ->
  (NoDup (transitions a ++ map first_char words) /\
   load_symbols a words
   = Next (set_transitions (transitions a ++ map first_char words) a)) \/
  (exists pre w post,
     words = pre ++ w :: post /\
     NoDup (transitions a ++ map first_char pre) /\
     first_char w ∈ transitions a ++ map first_char pre /\
     load_symbols a words
     = Return1 (SymbolTwice (first_char w))
         (set_transitions (transitions a ++ map first_char pre) a)).
Proof.
  revert a. induction words as [|w words IH]; intros a Hnd; simpl.
  - left. rewrite app_nil_r. split; [done|by destruct a].
  - destruct (decide (first_char w ∈ transitions a)) as [Hin|Hnew].
    + right. exists [], w, words. simpl. rewrite app_nil_r.
      rewrite bool_decide_eq_true_2 by done. repeat split; [done..|by destruct a].
    + rewrite bool_decide_eq_false_2 by done.
      assert (NoDup (transitions a ++ [first_char w])) as Hnd1.
      { apply NoDup_app. split; [done|]. split; [|apply NoDup_singleton].
        intros x Hx ->%list_elem_of_singleton. done. }
      pose proof (ascii_NoDup_length _ Hnd1) as Hlen.
      rewrite length_app in Hlen. simpl in Hlen.
      rewrite decide_True by (unfold MAX_SYMBOLS; lia).
      destruct (IH (set_transitions (transitions a ++ [first_char w]) a) Hnd1)
        as [[Hall Hnext]|(pre & w' & post & -> & Hpre & Hdup & Hret)]; simpl in *.
      * left. rewrite <- app_assoc in Hall, Hnext. by split.
      * right. exists (w :: pre), w', post. simpl.
        rewrite <- app_assoc in Hpre, Hdup, Hret. by repeat split.
Qed.

(** The finish loop never reads outside the flags. *)
Lemma load_finish_defined a words :
  length (finishState a) = length (statesNames a) ->
  load_finish a words <> Undefined.
Proof.
  revert a. induction words as [|w words IH]; intros a Hlen; simpl; [done|].
  destruct (decide (StateToIdx a w = -1)); [done|].
  destruct (zlookup_in_bounds (finishState a) (StateToIdx a w)) as (v & -> & _).
  { rewrite Hlen. destruct (StateToIdx_range a w); [done|by unfold statesNum in *]. }
  destruct (decide (v = 1)); [done|]. apply IH. simpl. by rewrite length_insert.
Qed.

Lemma load_finish_app a words1 words2 :
  load_finish a (words1 ++ words2) =
  (a' ← load_finish a words1; load_finish a' words2).
Proof.
  revert a. induction words1 as [|w words1 IH]; intros a; simpl; [done|].
  destruct (decide (StateToIdx a w = -1)); [done|].
  destruct (zlookup _ _) as [v|]; [|done].
  destruct (decide (v = 1)); [done|]. apply IH.
Qed.

(** X9.  When the first content line is not, as a whole, one of the words
    of the second, the load fails with the message about the start state;
    the struct then holds the states and -1 as its start index.  The first
    line is not tokenized: a trailing space is part of the name. *)
Theorem LoadAutomaton_unknown_start
    (a0 : Automaton) (content : list ascii) (start statesLine : cstring)
    (more : list cstring) :
  ReadLines (fopen content) = start :: statesLine :: more ->
  (length (ReadWords statesLine) <= MAX_STATES)%nat ->
  start ∉ ReadWords statesLine ->
  LoadAutomaton a0 (Some content)
  = Return1 (StartStateNotListed start)
      (mkAutomaton (ReadWords statesLine) (finishState a0) (-1) []
         (transitionTable a0)).
Proof.
  intros Hlines Hcap Hstart. rewrite LoadAutomaton_LoadLines, Hlines.
  unfold LoadLines. simpl. rewrite load_states_room by exact Hcap. simpl.
  unfold StateToIdx. simpl. rewrite first_index_from_absent by done.
  by rewrite decide_True.
Qed.

Lemma LoadAutomaton_unknown_start_witness :
  ReadLines (fopen (cs "even 
even odd
0 1
")) = cs "even " :: cs "even odd" :: [cs "0 1"] /\
  (length (ReadWords (cs "even odd")) <= MAX_STATES)%nat /\
  (cs "even " ∉ ReadWords (cs "even odd")) /\
  LoadAutomaton blank (Some (cs "even 
even odd
0 1
"))
  = Return1 (StartStateNotListed (cs "even "))
      (mkAutomaton (ReadWords (cs "even odd")) (finishState blank) (-1) []
         (transitionTable blank)).
Proof.
  assert (ReadLines (fopen (cs "even 
even odd
0 1
")) = cs "even " :: cs "even odd" :: [cs "0 1"]) as H1 by (vm_compute; reflexivity).
  assert (length (ReadWords (cs "even odd")) <= MAX_STATES)%nat as H2
    by (apply (bool_decide_unpack _); vm_compute; reflexivity).
  assert (cs "even " ∉ ReadWords (cs "even odd")) as H3
    by (apply (bool_decide_unpack _); vm_compute; reflexivity).
  split; [exact H1|]. split; [exact H2|]. split; [exact H3|].
  exact (LoadAutomaton_unknown_start blank _ _ _ _ H1 H2 H3).
Defined.

(** X10.  The loader has no check of the number of states: a states line
    with more than [MAX_STATES] words makes the states loop store past the
    end of [statesNames], which is undefined behaviour. *)
Theorem LoadAutomaton_too_many_states
    (a0 : Automaton) (content : list ascii) (start statesLine : cstring)
    (more : list cstring) :
  ReadLines (fopen content) = start :: statesLine :: more ->
  (MAX_STATES < length (ReadWords statesLine))%nat ->
  LoadAutomaton a0 (Some content) = Undefined.
Proof.
  intros Hlines Hcap. rewrite LoadAutomaton_LoadLines, Hlines.
  unfold LoadLines. simpl.
  rewrite load_states_overflow; [done| |exact Hcap].
  simpl. unfold MAX_STATES. lia.
Qed.

Lemma LoadAutomaton_too_many_states_witness :
  ReadLines (fopen (cs "s" ++ NL :: concat (replicate 257 (cs "s ")) ++ [NL]))
  = cs "s" :: concat (replicate 257 (cs "s ")) :: [] /\
  (MAX_STATES < length (ReadWords (concat (replicate 257 (cs "s ")))))%nat /\
  LoadAutomaton blank (Some (cs "s" ++ NL :: concat (replicate 257 (cs "s ")) ++ [NL]))
  = Undefined.
Proof.
  assert (ReadLines (fopen (cs "s" ++ NL :: concat (replicate 257 (cs "s ")) ++ [NL]))
          = cs "s" :: concat (replicate 257 (cs "s ")) :: []) as H1
    by (vm_compute; reflexivity).
  assert (MAX_STATES < length (ReadWords (concat (replicate 257 (cs "s ")))))%nat as H2
    by (apply (bool_decide_unpack _); vm_compute; reflexivity).
  split; [exact H1|]. split; [exact H2|].
  exact (LoadAutomaton_too_many_states blank _ _ _ _ H1 H2).
Defined.

Lemma load_symbols_duplicate a pre w post :
  NoDup (transitions a ++ map first_char pre) ->
  first_char w ∈ transitions a ++ map first_char pre ->
  load_symbols a (pre ++ w :: post)
  = Return1 (SymbolTwice (first_char w))
      (set_transitions (transitions a ++ map first_char pre) a).
Proof.
  revert a. induction pre as [|p pre IH]; intros a Hnd Hin; simpl in *.
  - rewrite app_nil_r in *. rewrite bool_decide_eq_true_2 by done. by destruct a.
  - pose proof Hnd as Hnd'. apply NoDup_app in Hnd' as (_ & Hdisj & _).
    rewrite bool_decide_eq_false_2.
    2:{ intros Hp. apply (Hdisj _ Hp). apply elem_of_cons. by left. }
    pose proof (ascii_NoDup_length _ Hnd) as Hlen.
    rewrite length_app in Hlen. simpl in Hlen.
    rewrite decide_True by (unfold MAX_SYMBOLS; lia).
    rewrite IH; simpl; rewrite <- ?app_assoc; done.
Qed.

(** X11.  A symbols line in which the first character of a word is the
    first character of an earlier word fails the load with the message
    about the symbol, at the first such word; the words before it are in
    the struct.  Only first characters count: the words "ab" and "ac" are
    the same symbol. *)
Theorem LoadAutomaton_duplicate_symbol
    (a0 : Automaton) (content : list ascii) (start statesLine symbolsLine : cstring)
    (more : list cstring) (pre : list cstring) (w : cstring) (post : list cstring) :
  ReadLines (fopen content) = start :: statesLine :: symbolsLine :: more ->
  (length (ReadWords statesLine) <= MAX_STATES)%nat ->
  start ∈ ReadWords statesLine ->
  ReadWords symbolsLine = pre ++ w :: post ->
  NoDup (map first_char pre) ->
  first_char w ∈ map first_char pre ->
  LoadAutomaton a0 (Some content)
  = Return1 (SymbolTwice (first_char w))
      (mkAutomaton (ReadWords statesLine) (finishState a0)
         (first_index_from 0 (ReadWords statesLine) start)
         (map first_char pre) (transitionTable a0)).
Proof.
  intros Hlines Hcap Hstart Hwords Hnd Hdup.
  rewrite LoadAutomaton_LoadLines, Hlines.
  unfold LoadLines. simpl. rewrite load_states_room by exact Hcap. simpl.
  destruct (first_index_from_present 0 (ReadWords statesLine) start Hstart)
    as (k & Hk & _).
  change (StateToIdx (set_statesNames (ReadWords statesLine)
                        (set_transitions [] (set_statesNames [] a0))) start)
    with (first_index_from 0 (ReadWords statesLine) start).
  rewrite decide_False by lia.
  rewrite Hwords, load_symbols_duplicate by done. done.
Qed.

Lemma LoadAutomaton_duplicate_symbol_witness :
  ReadLines (fopen (cs "even
even odd
ab c ac
")) = cs "even" :: cs "even odd" :: cs "ab c ac" :: [] /\
  ReadWords (cs "ab c ac") = [cs "ab"; cs "c"] ++ cs "ac" :: [] /\
  LoadAutomaton blank (Some (cs "even
even odd
ab c ac
"))
  = Return1 (SymbolTwice "a"%char)
      (mkAutomaton (ReadWords (cs "even odd")) (finishState blank)
         (first_index_from 0 (ReadWords (cs "even odd")) (cs "even"))
         (map first_char [cs "ab"; cs "c"]) (transitionTable blank)).
Proof.
  assert (ReadLines (fopen (cs "even
even odd
ab c ac
")) = cs "even" :: cs "even odd" :: cs "ab c ac" :: []) as H1
    by (vm_compute; reflexivity).
  assert (length (ReadWords (cs "even odd")) <= MAX_STATES)%nat as H2
    by (apply (bool_decide_unpack _); vm_compute; reflexivity).
  assert (cs "even" ∈ ReadWords (cs "even odd")) as H3
    by (apply (bool_decide_unpack _); vm_compute; reflexivity).
  assert (ReadWords (cs "ab c ac") = [cs "ab"; cs "c"] ++ cs "ac" :: []) as H4
    by (vm_compute; reflexivity).
  assert (NoDup (map first_char [cs "ab"; cs "c"])) as H5
    by (apply (bool_decide_unpack _); vm_compute; reflexivity).
  assert (first_char (cs "ac") ∈ map first_char [cs "ab"; cs "c"]) as H6
    by (apply (bool_decide_unpack _); vm_compute; reflexivity).
  split; [exact H1|]. split; [exact H4|].
  exact (LoadAutomaton_duplicate_symbol blank _ _ _ _ _ _ _ _ H1 H2 H3 H4 H5 H6).
Defined.

Lemma first_index_from_inj {A} `{EqDecision A} (l : list A) x y :
  x ∈ l -> first_index_from 0 l x = first_index_from 0 l y -> x = y.
Proof.
  intros Hx Heq.
  destruct (first_index_from_present 0 l x Hx) as (k & Hk & Hlk & _).
  destruct (decide (y ∈ l)) as [Hy|Hy].
  - destruct (first_index_from_present 0 l y Hy) as (k' & Hk' & Hlk' & _).
    assert (k = k') as -> by lia. congruence.
  - rewrite (first_index_from_absent 0 l y Hy) in Heq. lia.
Qed.

(** The load up to the finish line, for a file whose first three content
    lines are accepted. *)
Lemma LoadLines_header a0 start statesLine symbolsLine lines :
  (length (ReadWords statesLine) <= MAX_STATES)%nat ->
  start ∈ ReadWords statesLine ->
  NoDup (map first_char (ReadWords symbolsLine)) ->
  LoadLines a0 (start :: statesLine :: symbolsLine :: lines) =
  let a := mkAutomaton (ReadWords statesLine)
             (replicate (length (ReadWords statesLine)) 0)
             (first_index_from 0 (ReadWords statesLine) start)
             (map first_char (ReadWords symbolsLine)) (transitionTable a0) in
  '(finishStates, lines') ← next_line CannotReadFinishStates a lines;
  a' ← load_finish a (ReadWords finishStates);
  load_transitions
    (set_transitionTable
       (replicate (length (statesNames a'))
          (replicate (length (transitions a')) (-1))) a') lines'.
Proof.
  intros Hcap Hstart Hnd. unfold LoadLines. simpl.
  rewrite load_states_room by exact Hcap. simpl.
  destruct (first_index_from_present 0 (ReadWords statesLine) start Hstart)
    as (k & Hk & _).
  change (StateToIdx (set_statesNames (ReadWords statesLine)
                        (set_transitions [] (set_statesNames [] a0))) start)
    with (first_index_from 0 (ReadWords statesLine) start).
  rewrite decide_False by lia.
  rewrite load_symbols_distinct; [done|exact Hnd|].
  simpl. apply ascii_NoDup_length in Hnd. rewrite length_map in Hnd.
  unfold MAX_SYMBOLS. lia.
Qed.

(** The finish loop over words that are distinct state names: they are
    all marked. *)
Lemma load_finish_prefix a pre :
  length (finishState a) = length (statesNames a) ->
  Forall (fun v => v = 0) (finishState a) ->
  Forall (fun w => w ∈ statesNames a) pre ->
  NoDup pre ->
  exists fin,
    load_finish a pre = Next (set_finishState fin a) /\
    length fin = length (statesNames a) /\
    forall w, w ∈ pre -> zlookup fin (StateToIdx a w) = Some 1.
Proof.
  intros Hlen Hzero Hnames Hnd.
  destruct (load_finish_distinct a pre) as [a1 Ha1]; [done|done| | |].
  - apply (NoDup_fmap_2_strong _); [|done]. intros x y Hx _ Heq.
    rewrite Forall_forall in Hnames. by eapply first_index_from_inj; [apply Hnames|].
  - apply Forall_forall. intros w _ (_ & Hv)%zlookup_Some.
    rewrite Forall_forall in Hzero.
    apply list_elem_of_lookup_2, Hzero in Hv. done.
  - pose proof (load_finish_Next _ _ _ Ha1) as (fin & -> & Hfl & _).
    exists fin. split; [done|]. split; [congruence|].
    intros w Hw. apply (load_finish_marks _ _ _ w Ha1 Hw).
Qed.

Lemma bind_Next {A B} (x : A) (k : A -> Step B) : (Next x ≫= k) = k x.
Proof. done. Qed.

Lemma load_finish_unknown a w post :
  w ∉ statesNames a ->
  load_finish a (w :: post) = Return1 (FinishStateNotListed w) a.
Proof.
  intros Hw. simpl. unfold StateToIdx.
  rewrite (first_index_from_absent 0 (statesNames a) w) by done.
  by rewrite decide_True.
Qed.

Lemma load_finish_marked a w post :
  w ∈ statesNames a ->
  zlookup (finishState a) (StateToIdx a w) = Some 1 ->
  load_finish a (w :: post) = Return1 (DuplicatedFinishState w) a.
Proof.
  intros Hw Hmark. simpl. rewrite Hmark.
  destruct (first_index_from_present 0 (statesNames a) w Hw) as (k & Hk & _).
  fold (StateToIdx a w) in Hk. rewrite decide_False by lia.
  by rewrite decide_True.
Qed.

(** X12.  A word of the finish line that is not a state name fails the
    load with the message about the finishing state, when the words before
    it are distinct state names; the struct then holds their flags. *)
Theorem LoadAutomaton_unknown_final
    (a0 : Automaton) (content : list ascii)
    (start statesLine symbolsLine finishLine : cstring) (more : list cstring)
    (pre : list cstring) (w : cstring) (post : list cstring) :
  ReadLines (fopen content) = start :: statesLine :: symbolsLine :: finishLine :: more ->
  (length (ReadWords statesLine) <= MAX_STATES)%nat ->
  start ∈ ReadWords statesLine ->
  NoDup (map first_char (ReadWords symbolsLine)) ->
  ReadWords finishLine = pre ++ w :: post ->
  Forall (fun v => v ∈ ReadWords statesLine) pre ->
  NoDup pre ->
  w ∉ ReadWords statesLine ->
  exists a',
    LoadAutomaton a0 (Some content) = Return1 (FinishStateNotListed w) a' /\
    statesNames a' = ReadWords statesLine /\
    forall v, v ∈ pre -> zlookup (finishState a') (StateToIdx a' v) = Some 1.
Proof.
  intros Hlines Hcap Hstart Hnd Hwords Hpre Hprend Hw.
  rewrite LoadAutomaton_LoadLines, Hlines, LoadLines_header by done. simpl.
  rewrite Hwords, load_finish_app.
  match goal with |- context [load_finish ?A pre] =>
    destruct (load_finish_prefix A pre) as (fin & -> & Hlen & Hmarks) end;
    [simpl; by rewrite length_replicate|by apply Forall_replicate|done|done|].
  rewrite bind_Next, load_finish_unknown by done.
  eexists. split; [done|]. split; [done|]. exact Hmarks.
Qed.

(** X13.  A state name that the finish line lists a second time fails
    the load with the message about the duplicated finishing state, when
    the words before it are distinct state names. *)
Theorem LoadAutomaton_duplicate_final
    (a0 : Automaton) (content : list ascii)
    (start statesLine symbolsLine finishLine : cstring) (more : list cstring)
    (pre : list cstring) (w : cstring) (post : list cstring) :
  ReadLines (fopen content) = start :: statesLine :: symbolsLine :: finishLine :: more ->
  (length (ReadWords statesLine) <= MAX_STATES)%nat ->
  start ∈ ReadWords statesLine ->
  NoDup (map first_char (ReadWords symbolsLine)) ->
  ReadWords finishLine = pre ++ w :: post ->
  Forall (fun v => v ∈ ReadWords statesLine) pre ->
  NoDup pre ->
  w ∈ pre ->
  exists a',
    LoadAutomaton a0 (Some content) = Return1 (DuplicatedFinishState w) a' /\
    statesNames a' = ReadWords statesLine /\
    forall v, v ∈ pre -> zlookup (finishState a') (StateToIdx a' v) = Some 1.
Proof.
  intros Hlines Hcap Hstart Hnd Hwords Hpre Hprend Hw.
  rewrite LoadAutomaton_LoadLines, Hlines, LoadLines_header by done. simpl.
  rewrite Hwords, load_finish_app.
  match goal with |- context [load_finish ?A pre] =>
    destruct (load_finish_prefix A pre) as (fin & -> & Hlen & Hmarks) end;
    [simpl; by rewrite length_replicate|by apply Forall_replicate|done|done|].
  assert (w ∈ ReadWords statesLine) as Hwn
    by (rewrite Forall_forall in Hpre; by apply Hpre).
  rewrite bind_Next, load_finish_marked; [|exact Hwn|exact (Hmarks w Hw)].
  eexists. split; [done|]. split; [done|]. exact Hmarks.
Qed.

Lemma LoadAutomaton_unknown_final_witness :
  ReadLines (fopen unknown_final)
  = cs "even" :: cs "even odd" :: cs "0 1" :: cs "odd nowhere" :: [] /\
  ReadWords (cs "odd nowhere") = [cs "odd"] ++ cs "nowhere" :: [] /\
  (cs "nowhere" ∉ ReadWords (cs "even odd")) /\
  exists a',
    LoadAutomaton blank (Some unknown_final)
    = Return1 (FinishStateNotListed (cs "nowhere")) a'.
Proof.
  assert (ReadLines (fopen unknown_final)
    = cs "even" :: cs "even odd" :: cs "0 1" :: cs "odd nowhere" :: []) as H1
    by (vm_compute; reflexivity).
  assert (length (ReadWords (cs "even odd")) <= MAX_STATES)%nat as H2
    by (apply (bool_decide_unpack _); vm_compute; reflexivity).
  assert (cs "even" ∈ ReadWords (cs "even odd")) as H3
    by (apply (bool_decide_unpack _); vm_compute; reflexivity).
  assert (NoDup (map first_char (ReadWords (cs "0 1")))) as H4
    by (apply (bool_decide_unpack _); vm_compute; reflexivity).
  assert (ReadWords (cs "odd nowhere") = [cs "odd"] ++ cs "nowhere" :: []) as H5
    by (vm_compute; reflexivity).
  assert (Forall (fun v => v ∈ ReadWords (cs "even odd")) [cs "odd"]) as H6
    by (apply (bool_decide_unpack _); vm_compute; reflexivity).
  assert (NoDup [cs "odd"]) as H7
    by (apply (bool_decide_unpack _); vm_compute; reflexivity).
  assert (cs "nowhere" ∉ ReadWords (cs "even odd")) as H8
    by (apply (bool_decide_unpack _); vm_compute; reflexivity).
  split; [exact H1|]. split; [exact H5|]. split; [exact H8|].
  destruct (LoadAutomaton_unknown_final blank unknown_final _ _ _ _ _ _ _ _
              H1 H2 H3 H4 H5 H6 H7 H8) as (a' & Ha' & _).
  by exists a'.
Defined.

Lemma LoadAutomaton_duplicate_final_witness :
  ReadLines (fopen twice_final)
  = cs "even" :: cs "even odd" :: cs "0 1" :: cs "odd even odd" :: [] /\
  ReadWords (cs "odd even odd") = [cs "odd"; cs "even"] ++ cs "odd" :: [] /\
  cs "odd" ∈ [cs "odd"; cs "even"] /\
  exists a',
    LoadAutomaton blank (Some twice_final)
    = Return1 (DuplicatedFinishState (cs "odd")) a'.
Proof.
  assert (ReadLines (fopen twice_final)
    = cs "even" :: cs "even odd" :: cs "0 1" :: cs "odd even odd" :: []) as H1
    by (vm_compute; reflexivity).
  assert (length (ReadWords (cs "even odd")) <= MAX_STATES)%nat as H2
    by (apply (bool_decide_unpack _); vm_compute; reflexivity).
  assert (cs "even" ∈ ReadWords (cs "even odd")) as H3
    by (apply (bool_decide_unpack _); vm_compute; reflexivity).
  assert (NoDup (map first_char (ReadWords (cs "0 1")))) as H4
    by (apply (bool_decide_unpack _); vm_compute; reflexivity).
  assert (ReadWords (cs "odd even odd") = [cs "odd"; cs "even"] ++ cs "odd" :: [])
    as H5 by (vm_compute; reflexivity).
  assert (Forall (fun v => v ∈ ReadWords (cs "even odd")) [cs "odd"; cs "even"]) as H6
    by (apply (bool_decide_unpack _); vm_compute; reflexivity).
  assert (NoDup [cs "odd"; cs "even"]) as H7
    by (apply (bool_decide_unpack _); vm_compute; reflexivity).
  assert (cs "odd" ∈ [cs "odd"; cs "even"]) as H8
    by (apply (bool_decide_unpack _); vm_compute; reflexivity).
  split; [exact H1|]. split; [exact H5|]. split; [exact H8|].
  destruct (LoadAutomaton_duplicate_final blank twice_final _ _ _ _ _ _ _ _
              H1 H2 H3 H4 H5 H6 H7 H8) as (a' & Ha' & _).
  by exists a'.
Defined.

(** ** Transition lines *)

Lemma transition_line_invalid a line from symb to :
  sscanf3 line = (Some from, Some symb, Some to) ->
  from ∉ statesNames a \/ first_char symb ∉ transitions a \/ to ∉ statesNames a ->
  transition_line a line = Return1 (InvalidTransition from symb to) a.
Proof.
  intros Hscan Hbad. unfold transition_line. rewrite Hscan.
  rewrite bool_decide_eq_true_2; [done|].
  unfold StateToIdx, TransitionToIdx.
  destruct Hbad as [H|[H|H]]; [left|right; left|right; right];
    by apply first_index_from_absent.
Qed.

(** X14.  A transition line whose first or third token is not a state
    name, or whose second token does not start with a symbol, fails the
    load with the message of the invalid transition, when the transition
    lines before it are accepted; the struct holds what those lines
    stored. *)
Theorem LoadAutomaton_invalid_transition
    (a0 : Automaton) (file : option (list ascii)) (a5 : Automaton) (f5 : FILE)
    (pre post : list cstring) (line from symb to : cstring) (a6 : Automaton) :
  LoadHeader a0 file = Next (a5, f5) ->
  ReadLines f5 = pre ++ line :: post ->
  load_transitions a5 pre = Next a6 ->
  sscanf3 line = (Some from, Some symb, Some to) ->
  (from ∉ statesNames a5) \/ (first_char symb ∉ transitions a5) \/
  (to ∉ statesNames a5) ->
  LoadAutomaton a0 file = Return1 (InvalidTransition from symb to) a6.
Proof.
  intros Hheader Hlines Hpre Hscan Hbad.
  unfold LoadAutomaton. rewrite Hheader. simpl.
  rewrite Hlines, load_transitions_app, Hpre. simpl.
  destruct (load_transitions_Next _ _ _ Hpre) as (t & -> & _).
  by rewrite (transition_line_invalid (set_transitionTable t a5) line from symb to
                Hscan Hbad).
Qed.

Lemma LoadAutomaton_invalid_transition_witness :
  LoadHeader blank (Some unknown_target)
  = Next (twice_defined_header, mkFILE (cs "even 0 even
even 1 nowhere
") false) /\
  sscanf3 (cs "even 1 nowhere") = (Some (cs "even"), Some (cs "1"), Some (cs "nowhere")) /\
  LoadAutomaton blank (Some unknown_target)
  = Return1 (InvalidTransition (cs "even") (cs "1") (cs "nowhere")) unknown_target_left.
Proof.
  assert (LoadHeader blank (Some unknown_target)
          = Next (twice_defined_header, mkFILE (cs "even 0 even
even 1 nowhere
") false)) as H1 by (vm_compute; reflexivity).
  assert (ReadLines (mkFILE (cs "even 0 even
even 1 nowhere
") false) = [cs "even 0 even"] ++ cs "even 1 nowhere" :: []) as H2
    by (vm_compute; reflexivity).
  assert (load_transitions twice_defined_header [cs "even 0 even"]
          = Next unknown_target_left) as H3 by (vm_compute; reflexivity).
  assert (cs "nowhere" ∉ statesNames twice_defined_header) as H4
    by (apply (bool_decide_unpack _); vm_compute; reflexivity).
  split; [exact H1|]. split; [reflexivity|].
  exact (LoadAutomaton_invalid_transition blank _ _ _ _ _ _ _ _ _ _
           H1 H2 H3 eq_refl (or_intror (or_intror H4))).
Defined.

(** ** What a load can and cannot do *)

Lemma table_get_in_bounds t n N m i j :
  length t = n -> table_ok N m t ->
  0 <= i < Z.of_nat n -> 0 <= j < Z.of_nat m ->
  exists v, table_get t i j = Some v.
Proof.
  intros Hn Ht Hi Hj. unfold table_get.
  destruct (zlookup_in_bounds t i) as (row & -> & Hrow); [lia|].
  unfold table_ok in Ht. rewrite Forall_forall in Ht.
  destruct (Ht row Hrow) as [Hlen _].
  destruct (zlookup_in_bounds row j) as (v & -> & _); [lia|]. by exists v.
Qed.

(** With a table of the right shape, the transition loop is undefined
    only at a line with fewer than three tokens. *)
Lemma load_transitions_undefined a lines :
  length (transitionTable a) = length (statesNames a) ->
  table_ok (statesNum a) (length (transitions a)) (transitionTable a) ->
  load_transitions a lines = Undefined ->
  exists line, line ∈ lines /\
    forall from symb to, sscanf3 line <> (Some from, Some symb, Some to).
Proof.
  revert a. induction lines as [|line lines IH]; intros a Hlen Hok; simpl; [done|].
  destruct (transition_line a line) as [a1|msg a1|] eqn:Hline; simpl; [|done|].
  - intros Hrest.
    apply transition_line_Next in Hline as (i & j & k & Hres & _ & ->).
    destruct (IH (set_transitionTable (table_set (transitionTable a) i j k) a))
      as (l & Hl & Hshort); [| |exact Hrest|].
    + simpl. by rewrite table_set_length.
    + simpl. apply table_set_ok; [done|].
      apply resolve_line_range in Hres. right. unfold statesNum. simpl. lia.
    + exists l. split; [by apply list_elem_of_further|done].
  - intros _. exists line. split; [apply list_elem_of_here|].
    intros from symb to Hscan. revert Hline. unfold transition_line.
    rewrite Hscan. destruct (bool_decide _) eqn:Hbad; [done|].
    apply bool_decide_eq_false in Hbad.
    destruct (table_get_in_bounds (transitionTable a) (length (statesNames a))
                (statesNum a) (length (transitions a))
                (StateToIdx a from) (TransitionToIdx a (first_char symb)))
      as (v & ->); [done|done| | |by destruct (decide (v <> -1))].
    + destruct (StateToIdx_range a from); [tauto|by unfold statesNum in *].
    + unfold TransitionToIdx.
      destruct (first_index_from_range 0 (transitions a) (first_char symb)); [done|tauto|lia].
Qed.

(** X15.  The loader reads and writes its arrays within bounds, with two
    exceptions: a states line of more than [MAX_STATES] words, and a
    transition line of fewer than three tokens (the result of [sscanf] is
    not tested, so buffers that were not written are read).  Every other
    file gives a defined result. *)
Theorem LoadAutomaton_undefined_only (a0 : Automaton) (content : list ascii) :
  LoadAutomaton a0 (Some content) = Undefined ->
  (exists start statesLine more,
     ReadLines (fopen content) = start :: statesLine :: more /\
     (MAX_STATES < length (ReadWords statesLine))%nat) \/
  (exists l1 l2 l3 l4 trans line,
     ReadLines (fopen content) = l1 :: l2 :: l3 :: l4 :: trans /\
     line ∈ trans /\
     forall from symb to, sscanf3 line <> (Some from, Some symb, Some to)).
Proof.
  rewrite LoadAutomaton_LoadLines.
  destruct (ReadLines (fopen content)) as [|l1 [|l2 more]]; [done..|].
  destruct (decide (length (ReadWords l2) <= MAX_STATES)%nat) as [Hcap|Hcap];
    [|intros _; left; exists l1, l2, more; split; [done|lia]].
  unfold LoadLines. simpl. rewrite load_states_room by exact Hcap. simpl.
  destruct (decide _); [done|].
  destruct more as [|l3 more]; [done|]. simpl.
  match goal with |- context [load_symbols ?A ?W] =>
    destruct (load_symbols_cases A W) as [[Hnd ->]|(p & w & q & _ & _ & _ & ->)] end;
    [apply NoDup_nil_2| |done].
  simpl. destruct more as [|l4 trans]; [done|]. simpl.
  match goal with |- context [load_finish ?A ?W] =>
    pose proof (load_finish_defined A W) as Hdef;
    destruct (load_finish A W) as [a3| |] eqn:Hfin end; simpl; [|done|].
  - intros Hundef. right. exists l1, l2, l3, l4, trans.
    apply load_finish_Next in Hfin as (fin & -> & _).
    apply load_transitions_undefined in Hundef as (line & Hin & Hshort).
    + by exists line.
    + simpl. by rewrite length_replicate.
    + apply table_ok_fresh.
  - exfalso. apply Hdef; [|done]. simpl. by rewrite length_replicate.
Qed.

Lemma LoadAutomaton_undefined_only_witness :
  LoadAutomaton blank (Some short_transition) = Undefined /\
  ((exists start statesLine more,
      ReadLines (fopen short_transition) = start :: statesLine :: more /\
      (MAX_STATES < length (ReadWords statesLine))%nat) \/
   (exists l1 l2 l3 l4 trans line,
      ReadLines (fopen short_transition) = l1 :: l2 :: l3 :: l4 :: trans /\
      line ∈ trans /\
      forall from symb to, sscanf3 line <> (Some from, Some symb, Some to))).
Proof.
  assert (LoadAutomaton blank (Some short_transition) = Undefined) as H
    by (vm_compute; reflexivity).
  split; [exact H|]. exact (LoadAutomaton_undefined_only blank short_transition H).
Defined.

(** ** What a loaded automaton holds *)

Lemma first_index_from_found_aux {A} `{EqDecision A} (l : list A) x :
  first_index_from 0 l x <> -1 -> x ∈ l.
Proof.
  intros Hr. destruct (decide (x ∈ l)) as [|Hn]; [done|].
  by rewrite first_index_from_absent in Hr.
Qed.

(** A successful load, stage by stage. *)
Lemma LoadLines_Next_inv a0 lines a :
  LoadLines a0 lines = Next a ->
  exists start statesLine symbolsLine finishLine trans fin,
    lines = start :: statesLine :: symbolsLine :: finishLine :: trans /\
    (length (ReadWords statesLine) <= MAX_STATES)%nat /\
    start ∈ ReadWords statesLine /\
    NoDup (map first_char (ReadWords symbolsLine)) /\
    let a4 := mkAutomaton (ReadWords statesLine)
                (replicate (length (ReadWords statesLine)) 0)
                (first_index_from 0 (ReadWords statesLine) start)
                (map first_char (ReadWords symbolsLine)) (transitionTable a0) in
    load_finish a4 (ReadWords finishLine) = Next (set_finishState fin a4) /\
    load_transitions
      (set_transitionTable
         (replicate (length (ReadWords statesLine))
            (replicate (length (map first_char (ReadWords symbolsLine))) (-1)))
         (set_finishState fin a4)) trans = Next a.
Proof.
  destruct lines as [|start [|statesLine more]]; [done..|].
  unfold LoadLines. simpl.
  destruct (decide (length (ReadWords statesLine) <= MAX_STATES)%nat) as [Hcap|Hcap].
  2:{ rewrite load_states_overflow; [done|simpl; unfold MAX_STATES; lia|simpl; lia]. }
  rewrite load_states_room by exact Hcap. simpl.
  change (StateToIdx (set_statesNames (ReadWords statesLine)
                        (set_transitions [] (set_statesNames [] a0))) start)
    with (first_index_from 0 (ReadWords statesLine) start).
  destruct (decide _) as [|Hstart]; [done|].
  apply (first_index_from_found_aux) in Hstart.
  destruct more as [|symbolsLine more]; [done|]. simpl.
  match goal with |- context [load_symbols ?A ?W] =>
    destruct (load_symbols_cases A W) as [[Hnd ->]|(p & w & q & _ & _ & _ & ->)] end;
    [apply NoDup_nil_2| |done].
  simpl in *. destruct more as [|finishLine trans]; [done|]. simpl.
  match goal with |- context [load_finish ?A ?W] =>
    destruct (load_finish A W) as [a3| |] eqn:Hfin end; simpl; [|done..].
  intros Htrans.
  pose proof (load_finish_Next _ _ _ Hfin) as (fin & -> & _).
  exists start, statesLine, symbolsLine, finishLine, trans, fin.
  by repeat split.
Qed.

(** X16.  After a successful load the struct holds the words of the second
    content line as its states (between 1 and [MAX_STATES] of them), the
    first characters of the words of the third as its symbols, pairwise
    distinct, and as its start state the index the first line resolves
    to, which is a state. *)
Theorem LoadAutomaton_header_fields
    (a0 : Automaton) (content : list ascii) (a : Automaton)
    (start statesLine symbolsLine finishLine : cstring) (trans : list cstring) :
  LoadAutomaton a0 (Some content) = Next a ->
  ReadLines (fopen content) = start :: statesLine :: symbolsLine :: finishLine :: trans ->
  statesNames a = ReadWords statesLine /\
  (1 <= length (statesNames a) <= MAX_STATES)%nat /\
  transitions a = map first_char (ReadWords symbolsLine) /\
  NoDup (transitions a) /\
  start ∈ statesNames a /\
  startStateIndex a = StateToIdx a start.
Proof.
  rewrite LoadAutomaton_LoadLines. intros Hload Hlines. rewrite Hlines in Hload.
  apply LoadLines_Next_inv in Hload
    as (s & l2 & l3 & l4 & tr & fin & [= <- <- <- <- <-] & Hcap & Hstart & Hnd & _ & Ht).
  apply load_transitions_Next in Ht as (t & -> & _). simpl.
  split; [done|]. split; [|done].
  split; [|done]. destruct (ReadWords statesLine); [by apply elem_of_nil in Hstart|].
  simpl. lia.
Qed.

Lemma load_finish_origin a words a' i :
  load_finish a words = Next a' ->
  zlookup (finishState a') i = Some 1 ->
  zlookup (finishState a) i = Some 1 \/ exists w, w ∈ words /\ StateToIdx a w = i.
Proof.
  revert a. induction words as [|w words IH]; intros a; simpl.
  - intros [= <-]. by left.
  - destruct (decide (StateToIdx a w = -1)) as [|Hidx]; [done|].
    destruct (zlookup (finishState a) (StateToIdx a w)) as [v|] eqn:Hv; [|done].
    destruct (decide (v = 1)); [done|].
    intros Hrest Hi. destruct (IH _ Hrest Hi) as [Hset|(w' & Hw' & Hidx')].
    + simpl in Hset. destruct (decide (StateToIdx a w = i)) as [<-|Hne].
      * right. exists w. split; [apply list_elem_of_here|done].
      * left. rewrite zlookup_insert_ne in Hset; [done| |done].
        by apply zlookup_Some in Hv as [? _].
    + right. exists w'. split; [by apply list_elem_of_further|done].
Qed.

(** X17.  After a successful load the finish flags are exactly the states
    the fourth content line names: the flag of an index is 1 when a word
    of the line resolves to it, and 0 otherwise. *)
Theorem LoadAutomaton_finish_flags
    (a0 : Automaton) (content : list ascii) (a : Automaton)
    (start statesLine symbolsLine finishLine : cstring) (trans : list cstring) :
  LoadAutomaton a0 (Some content) = Next a ->
  ReadLines (fopen content) = start :: statesLine :: symbolsLine :: finishLine :: trans ->
  forall i, 0 <= i < statesNum a ->
    (zlookup (finishState a) i = Some 1 <->
     exists w, w ∈ ReadWords finishLine /\ StateToIdx a w = i) /\
    (zlookup (finishState a) i = Some 0 <->
     ~ exists w, w ∈ ReadWords finishLine /\ StateToIdx a w = i).
Proof.
  intros Hload Hlines i Hi.
  pose proof (LoadAutomaton_well_formed _ _ _ Hload) as Hwf.
  rewrite LoadAutomaton_LoadLines, Hlines in Hload.
  apply LoadLines_Next_inv in Hload
    as (s & l2 & l3 & l4 & tr & fin & [= <- <- <- <- <-] & Hcap & Hstart & Hnd & Hfin & Ht).
  apply load_transitions_Next in Ht as (t & -> & _). simpl in *.
  assert (zlookup fin i = Some 1 <->
          exists w, w ∈ ReadWords finishLine /\
                    first_index_from 0 (ReadWords statesLine) w = i) as Hone.
  { split.
    - intros Hflag. destruct (load_finish_origin _ _ _ i Hfin Hflag) as [Hz|Hw]; [|done].
      simpl in Hz. apply zlookup_Some in Hz as [_ Hz].
      by apply lookup_replicate in Hz as [? _].
    - intros (w & Hw & <-). apply (load_finish_marks _ _ _ w Hfin Hw). }
  split; [exact Hone|].
  destruct (zlookup_in_bounds fin i) as (v & Hv & Hvin).
  { pose proof (wf_finish_length _ Hwf) as Hfl. simpl in Hfl. rewrite Hfl.
    unfold statesNum in Hi. simpl in Hi. exact Hi. }
  pose proof (wf_finish_values _ Hwf) as Hflags. unfold flags in Hflags.
  simpl in Hflags. rewrite Forall_forall in Hflags.
  unfold StateToIdx. simpl. rewrite <- Hone, Hv.
  destruct (Hflags v Hvin) as [->| ->]; split; congruence.
Qed.



Lemma even_ones_lines :
  ReadLines (fopen even_ones)
  = cs "even" :: cs "even odd" :: cs "0 1" :: cs "even"
    :: [cs "even 0 even"; cs "even 1 odd"; cs "odd 0 odd"; cs "odd 1 even"].
Proof. vm_compute. reflexivity. Qed.

Lemma even_ones_load : LoadAutomaton blank (Some even_ones) = Next even_ones_automaton.
Proof. vm_compute. reflexivity. Qed.

Lemma LoadAutomaton_header_fields_witness :
  LoadAutomaton blank (Some even_ones) = Next even_ones_automaton /\
  statesNames even_ones_automaton = ReadWords (cs "even odd") /\
  NoDup (transitions even_ones_automaton).
Proof.
  split; [exact even_ones_load|].
  pose proof (LoadAutomaton_header_fields blank even_ones even_ones_automaton
                _ _ _ _ _ even_ones_load even_ones_lines) as (H1 & _ & _ & H4 & _).
  split; [exact H1|exact H4].
Defined.

Lemma LoadAutomaton_finish_flags_witness :
  LoadAutomaton blank (Some even_ones) = Next even_ones_automaton /\
  0 <= 1 < statesNum even_ones_automaton /\
  (zlookup (finishState even_ones_automaton) 1 = Some 0 <->
   ~ exists w, w ∈ ReadWords (cs "even") /\ StateToIdx even_ones_automaton w = 1).
Proof.
  assert (0 <= 1 < statesNum even_ones_automaton) as Hi by (unfold statesNum; simpl; lia).
  split; [exact even_ones_load|]. split; [exact Hi|].
  exact (proj2 (LoadAutomaton_finish_flags blank even_ones even_ones_automaton
                  _ _ _ _ _ even_ones_load even_ones_lines 1 Hi)).
Defined.


(** X19.  For a loaded automaton the symbols and their indices correspond
    one to one: [TransitionToIdx] of a character is -1 when it is no
    symbol, and otherwise the one index at which [transitions] holds it. *)
Theorem TransitionToIdx_round_trip (a : Automaton) :
  loaded a ->
  (forall c, TransitionToIdx a c = -1 <-> c ∉ transitions a) /\
  (forall c, c ∈ transitions a ->
             zlookup (transitions a) (TransitionToIdx a c) = Some c) /\
  (forall i c, zlookup (transitions a) i = Some c -> TransitionToIdx a c = i).
Proof.
  intros (a0 & content & Hload).
  assert (NoDup (transitions a)) as Hnd.
  { rewrite LoadAutomaton_LoadLines in Hload.
    apply LoadLines_Next_inv in Hload
      as (s & l2 & l3 & l4 & tr & fin & _ & _ & _ & Hnd & _ & Ht).
    by apply load_transitions_Next in Ht as (t & -> & _). }
  split; [intros c; apply TransitionToIdx_absent|].
  assert (forall c, c ∈ transitions a ->
            zlookup (transitions a) (TransitionToIdx a c) = Some c) as Hget.
  { intros c Hc. unfold TransitionToIdx.
    destruct (first_index_from_present 0 (transitions a) c Hc) as (k & -> & Hk & _).
    apply zlookup_Some. split; [lia|]. by rewrite Z.add_0_l, Nat2Z.id. }
  split; [exact Hget|].
  intros i c [Hi Hc]%zlookup_Some.
  pose proof (Hget c (list_elem_of_lookup_2 _ _ _ Hc)) as [Hi' Hc']%zlookup_Some.
  pose proof (NoDup_lookup _ _ _ _ Hnd Hc Hc'). lia.
Qed.

Lemma TransitionToIdx_round_trip_witness :
  loaded even_ones_automaton /\
  forall i c, zlookup (transitions even_ones_automaton) i = Some c ->
              TransitionToIdx even_ones_automaton c = i.
Proof.
  split; [exact even_ones_loaded|].
  exact (proj2 (proj2 (TransitionToIdx_round_trip even_ones_automaton even_ones_loaded))).
Defined.

(** ** Transition lines with more than three tokens *)

Lemma span_word_app_space s junk :
  span_word (s ++ SPACE :: junk)
  = (fst (span_word s), snd (span_word s) ++ SPACE :: junk).
Proof.
  induction s as [|c s IH]; [done|]. simpl.
  destruct (isspace c); [done|]. rewrite IH. by destruct (span_word s).
Qed.

Lemma scan_s_app_space s w r junk :
  scan_s s = Some (w, r) ->
  scan_s (s ++ SPACE :: junk) = Some (w, r ++ SPACE :: junk).
Proof.
  unfold scan_s. intros Hscan.
  assert (skip_isspace (s ++ SPACE :: junk) = skip_isspace s ++ SPACE :: junk) as ->.
  { induction s as [|c s IH]; [done|]. simpl in *.
    destruct (isspace c); [by apply IH|done]. }
  rewrite span_word_app_space.
  destruct (span_word (skip_isspace s)) as [[|c w'] r']; [done|].
  by injection Hscan as <- <-.
Qed.

Lemma sscanf3_app_space line from symb to junk :
  sscanf3 line = (Some from, Some symb, Some to) ->
  sscanf3 (line ++ SPACE :: junk) = (Some from, Some symb, Some to).
Proof.
  unfold sscanf3.
  destruct (scan_s line) as [[w1 r1]|] eqn:E1; [|done].
  destruct (scan_s r1) as [[w2 r2]|] eqn:E2; [|done].
  destruct (scan_s r2) as [[w3 r3]|] eqn:E3; [|done].
  intros [= <- <- <-].
  rewrite (scan_s_app_space _ _ _ junk E1), (scan_s_app_space _ _ _ junk E2).
  by rewrite (scan_s_app_space _ _ _ junk E3).
Qed.

(** X20.  A transition line is read through its first three tokens only:
    whatever follows them after a space changes nothing, the line is
    handled as if it ended after the third token. *)
Theorem transition_line_extra_tokens
    (a : Automaton) (line from symb to junk : cstring) :
  sscanf3 line = (Some from, Some symb, Some to) ->
  transition_line a (line ++ SPACE :: junk) = transition_line a line.
Proof.
  intros Hscan. unfold transition_line.
  by rewrite (sscanf3_app_space line from symb to junk Hscan), Hscan.
Qed.

Lemma transition_line_extra_tokens_witness :
  sscanf3 (cs "even 0 even") = (Some (cs "even"), Some (cs "0"), Some (cs "even")) /\
  transition_line twice_defined_header (cs "even 0 even" ++ SPACE :: cs "odd # note")
  = transition_line twice_defined_header (cs "even 0 even").
Proof.
  split; [reflexivity|].
  exact (transition_line_extra_tokens twice_defined_header (cs "even 0 even")
           _ _ _ (cs "odd # note") eq_refl).
Defined.

(** ** The simulation engine and the driver *)

(** X21.  For a loaded automaton and inputs made of symbols, the verdict
    of an input depends on its prefix only through the state the prefix
    leads to: two prefixes with the same fold (the same state, or both
    off the transition graph) give the same result with every suffix. *)
Theorem ProcessString_same_state (a : Automaton) (u v w : cstring) :
  loaded a ->
  Forall (in_alphabet a) u -> Forall (in_alphabet a) v -> Forall (in_alphabet a) w ->
  spec_fold a (startStateIndex a) u = spec_fold a (startStateIndex a) v ->
  ProcessString a (u ++ w) = ProcessString a (v ++ w).
Proof.
  intros Hwf%loaded_well_formed Hu Hv Hw Hsame.
  rewrite !ProcessString_classify by done. f_equal. unfold classify.
  rewrite !bool_decide_eq_true_2 by (by apply Forall_app).
  by rewrite !spec_fold_app, Hsame.
Qed.

Lemma ProcessString_same_state_witness :
  loaded even_ones_automaton /\
  spec_fold even_ones_automaton (startStateIndex even_ones_automaton) (cs "11")
  = spec_fold even_ones_automaton (startStateIndex even_ones_automaton) (cs "0") /\
  ProcessString even_ones_automaton (cs "11" ++ cs "01")
  = ProcessString even_ones_automaton (cs "0" ++ cs "01").
Proof.
  assert (Forall (in_alphabet even_ones_automaton) (cs "11")) as H1
    by (apply wrong_symbol_false; reflexivity).
  assert (Forall (in_alphabet even_ones_automaton) (cs "0")) as H2
    by (apply wrong_symbol_false; reflexivity).
  assert (Forall (in_alphabet even_ones_automaton) (cs "01")) as H3
    by (apply wrong_symbol_false; reflexivity).
  split; [exact even_ones_loaded|]. split; [reflexivity|].
  exact (ProcessString_same_state even_ones_automaton _ _ _ even_ones_loaded
           H1 H2 H3 eq_refl).
Defined.

Lemma print_result_verdict v line :
  print_result (verdict_code v) line = [print_verdict v line].
Proof. by destruct v. Qed.

Lemma process_lines_classify a lines :
  well_formed a ->
  process_lines a lines = Some (map (fun l => print_verdict (classify a l) l) lines).
Proof.
  intros Hwf. induction lines as [|l lines IH]; [done|]. simpl.
  by rewrite ProcessString_classify, IH, print_result_verdict.
Qed.

(** X22.  After a successful load [main] prints one verdict line for each
    line [GetLine] yields from the strings file, in order, each with the
    verdict of that line alone, and exits with status 0; when the strings
    file cannot be opened it prints no verdict and exits with status 1. *)
Theorem main_verdicts
    (a0 : Automaton) (automatonFile : option (list ascii)) (a : Automaton) :
  LoadAutomaton a0 automatonFile = Next a ->
  (forall strings,
     main a0 automatonFile (Some strings)
     = Some (0, map (fun l => print_verdict (classify a l) l)
                  (ReadLines (fopen strings)))) /\
  main a0 automatonFile None = Some (1, []).
Proof.
  intros Hload. pose proof (LoadAutomaton_well_formed _ _ _ Hload) as Hwf.
  unfold main. rewrite Hload. split; [|done].
  intros strings. by rewrite process_lines_classify.
Qed.

Lemma main_verdicts_witness :
  LoadAutomaton blank (Some even_ones) = Next even_ones_automaton /\
  main blank (Some even_ones) (Some (cs "11
# a comment
102
1"))
  = Some (0, map (fun l => print_verdict (classify even_ones_automaton l) l)
               (ReadLines (fopen (cs "11
# a comment
102
1")))).
Proof.
  assert (LoadAutomaton blank (Some even_ones) = Next even_ones_automaton) as H
    by (vm_compute; reflexivity).
  split; [exact H|].
  exact (proj1 (main_verdicts blank (Some even_ones) even_ones_automaton H) _).
Defined.

(** ** The debug print *)

Lemma dump_end_states_defined a i count :
  length (finishState a) = length (statesNames a) ->
  (i + count <= length (statesNames a))%nat ->
  is_Some (dump_end_states a i count).
Proof.
  intros Hlen. revert i. induction count as [|count IH]; intros i Hi; simpl; [done|].
  destruct (lookup_lt_is_Some_2 (finishState a) i) as [fin ->]; [lia|].
  destruct (lookup_lt_is_Some_2 (statesNames a) i) as [name ->]; [lia|].
  destruct (IH (S i)) as [out ->]; [lia|].
  by destruct (decide (fin = 1)).
Qed.

Lemma dump_row_defined a i j count :
  well_formed a ->
  (i < length (statesNames a))%nat ->
  (j + count <= length (transitions a))%nat ->
  is_Some (dump_row a i j count).
Proof.
  intros Hwf Hi. revert j. induction count as [|count IH]; intros j Hj; simpl; [done|].
  destruct (table_get_well_formed a (Z.of_nat i) (Z.of_nat j) Hwf)
    as (next & -> & Hnext); [unfold statesNum; lia|unfold transitionsNum; lia|].
  destruct (lookup_lt_is_Some_2 (statesNames a) i) as [from ->]; [lia|].
  destruct (lookup_lt_is_Some_2 (transitions a) j) as [c ->]; [lia|].
  destruct (IH (S j)) as [out ->]; [lia|].
  destruct (decide (next = -1)); [done|].
  destruct (zlookup_in_bounds (statesNames a) next) as (to & -> & _); [|done].
  unfold statesNum in Hnext. lia.
Qed.

Lemma dump_row_out_of_bounds a i j count :
  (length (transitions a) < j + count)%nat -> (0 < count)%nat ->
  dump_row a i j count = None.
Proof.
  revert j. induction count as [|count IH]; intros j Hj Hc; [lia|]. simpl.
  destruct (decide (j < length (transitions a))%nat) as [Hlt|Hge].
  - rewrite (IH (S j)) by lia.
    destruct (table_get _ _ _); [|done].
    destruct (statesNames a !! i); [|done].
    destruct (transitions a !! j); [|done].
    by destruct (decide _); [|destruct (zlookup _ _)].
  - rewrite (lookup_ge_None_2 (transitions a) j) by lia.
    destruct (table_get _ _ _); [|done]. by destruct (statesNames a !! i).
Qed.

Lemma dump_table_defined a i count :
  well_formed a ->
  (length (statesNames a) <= length (transitions a))%nat ->
  (i + count <= length (statesNames a))%nat ->
  is_Some (dump_table a i count).
Proof.
  intros Hwf Hnm. revert i. induction count as [|count IH]; intros i Hi; simpl; [done|].
  destruct (dump_row_defined a i 0 (length (statesNames a)) Hwf) as [row ->];
    [lia|lia|].
  by destruct (IH (S i)) as [out ->]; [lia|].
Qed.

(** X23.  [PrintAutomaton] walks [statesNum] columns in every row of the
    table, not [transitionsNum]: for a loaded automaton it stays within
    the table and the symbols exactly when there are at least as many
    symbols as states. *)
Theorem PrintAutomaton_bounds (a : Automaton) :
  loaded a ->
  (is_Some (PrintAutomaton a) <->
   (length (statesNames a) <= length (transitions a))%nat).
Proof.
  intros Hwf%loaded_well_formed. unfold PrintAutomaton.
  pose proof (wf_start a Hwf) as Hstart. unfold statesNum in Hstart.
  destruct (zlookup_in_bounds (statesNames a) (startStateIndex a) Hstart)
    as (start & -> & _).
  destruct (dump_end_states_defined a 0 (length (statesNames a))
              (wf_finish_length a Hwf)) as [ends ->]; [lia|].
  split.
  - intros Hsome.
    destruct (decide (length (statesNames a) <= length (transitions a))%nat)
      as [|Hgt]; [done|].
    exfalso. destruct (length (statesNames a)) as [|n] eqn:Hn; [lia|].
    simpl in Hsome. rewrite Hn in Hsome.
    rewrite (dump_row_out_of_bounds a 0 0 (S n)) in Hsome by lia.
    by destruct Hsome.
  - intros Hle.
    by destruct (dump_table_defined a 0 (length (statesNames a)) Hwf Hle) as [t ->].
Qed.

Lemma PrintAutomaton_bounds_witness :
  loaded even_ones_automaton /\
  (is_Some (PrintAutomaton even_ones_automaton) <->
   (length (statesNames even_ones_automaton)
    <= length (transitions even_ones_automaton))%nat).
Proof.
  split; [exact even_ones_loaded|].
  exact (PrintAutomaton_bounds even_ones_automaton even_ones_loaded).
Defined.

Example PrintAutomaton_even_ones :
  PrintAutomaton even_ones_automaton
  = Some [Start_state (cs "even");
          End_states; Name (cs "even"); End_of_line;
          All_states; Name (cs "even"); Name (cs "odd"); End_of_line;
          Symbols; Symbol "0"%char; Symbol "1"%char; End_of_line;
          Transition_table;
          Transition (cs "even") "0"%char (cs "even");
          Transition (cs "even") "1"%char (cs "odd");
          Transition (cs "odd") "0"%char (cs "odd");
          Transition (cs "odd") "1"%char (cs "even")].
Proof. reflexivity. Qed.

(** The automaton of the second scenario has three states and one symbol:
    its dump reads outside the table. *)
Example PrintAutomaton_dead_end :
  (a ← LoadAutomaton blank (Some dead_end); Next (PrintAutomaton a)) = Next None.
Proof. vm_compute. reflexivity. Qed.

(** ** Failed loads, exit by exit *)

Lemma StateToIdx_absent_iff a w : StateToIdx a w = -1 <-> w ∉ statesNames a.
Proof.
  unfold StateToIdx. split.
  - intros Hr Hin.
    destruct (first_index_from_present 0 (statesNames a) w Hin) as (k & Hk & _). lia.
  - apply first_index_from_absent.
Qed.

(** The finish loop stops at the first word it refuses, with the flags of
    the words before it set. *)
Lemma load_finish_refused a words msg a' :
  load_finish a words = Return1 msg a' ->
  exists pre w post,
    words = pre ++ w :: post /\
    load_finish a pre = Next a' /\
    ((msg = FinishStateNotListed w /\ w ∉ statesNames a') \/
     (msg = DuplicatedFinishState w /\
      zlookup (finishState a') (StateToIdx a' w) = Some 1)).
Proof.
  revert a. induction words as [|w words IH]; intros a; simpl; [done|].
  destruct (decide (StateToIdx a w = -1)) as [Hidx|Hidx].
  - intros [= <- <-]. exists [], w, words. split; [done|]. split; [done|].
    left. split; [done|]. by apply (proj1 (StateToIdx_absent_iff a w)).
  - destruct (zlookup (finishState a) (StateToIdx a w)) as [v|] eqn:Hv; [|done].
    destruct (decide (v = 1)) as [->|Hv1].
    + intros [= <- <-]. exists [], w, words. split; [done|]. split; [done|].
      right. by split.
    + intros (pre & w' & post & -> & Hpre & Hmsg)%IH.
      exists (w :: pre), w', post. split; [done|]. split; [|done].
      simpl. rewrite decide_False by done. rewrite Hv. by rewrite decide_False.
Qed.

Lemma LoadLines_failure a0 lines msg a' :
  LoadLines a0 lines = Return1 msg a' -> LoadFailure a0 lines msg a'.
Proof.
  unfold LoadLines.
  destruct lines as [|start [|statesLine more]]; simpl;
    [intros [= <- <-]; constructor..|].
  destruct (load_states _ (ReadWords statesLine)) as [a1|m1 a1|] eqn:Hstates;
    simpl; [|by apply load_states_no_failure in Hstates|done].
  apply load_states_Next in Hstates. simpl in Hstates. subst a1.
  change (StateToIdx (set_statesNames (ReadWords statesLine)
                        (set_transitions [] (set_statesNames [] a0))) start)
    with (first_index_from 0 (ReadWords statesLine) start).
  destruct (decide _) as [Hstart|Hstart].
  { intros [= <- <-]. apply at_start_state.
    intros Hin. destruct (first_index_from_present 0 _ _ Hin) as (k & Hk & _). lia. }
  apply first_index_from_found_aux in Hstart.
  destruct more as [|symbolsLine more]; simpl;
    [intros [= <- <-]; by apply at_symbols|].
  match goal with |- context [load_symbols ?A ?W] =>
    destruct (load_symbols_cases A W)
      as [[Hnd ->]|(pre & w & post & Hw & Hpnd & Hdup & ->)] end;
    [apply NoDup_nil_2| |]; simpl.
  2:{ intros [= <- <-].
      exact (at_symbol a0 start statesLine symbolsLine more pre w post
               Hstart Hw Hpnd Hdup). }
  simpl in Hnd.
  destruct more as [|finishLine trans]; simpl;
    [intros [= <- <-]; by apply at_finish_states|].
  match goal with |- context [load_finish ?A (ReadWords finishLine)] =>
    change A with (before_finish a0 start statesLine symbolsLine) end.
  destruct (load_finish (before_finish a0 start statesLine symbolsLine)
              (ReadWords finishLine)) as [a4|m4 a4|] eqn:Hfin; simpl; [| |done].
  - intros (pre & line & post & -> & Hpre & Hline)%load_transitions_refused.
    exact (at_transition a0 start statesLine symbolsLine finishLine pre line post
             a4 msg a' Hstart Hnd Hfin Hpre Hline).
  - intros [= <- <-].
    apply load_finish_refused in Hfin as (pre & w & post & Hw & Hpre & Hmsg).
    pose proof (load_finish_Next _ _ _ Hpre) as (fin & Ha4 & _).
    destruct Hmsg as [[-> Hno]|[-> Hdup]].
    + apply (at_unknown_final a0 start statesLine symbolsLine finishLine trans
               pre w post a4 Hstart Hnd Hw Hpre). by rewrite Ha4 in Hno.
    + exact (at_duplicate_final a0 start statesLine symbolsLine finishLine trans
               pre w post a4 Hstart Hnd Hw Hpre Hdup).
Qed.

(** C7, as the code has it.  A failed load stops at the first error and
    returns 1: the failure is that of the header, or that of the first
    transition line the loop refuses, and nothing after it is looked at.
    [main] then exits with status 1 and classifies no string.  The struct
    of the caller is not reset or released: whichever [return 1] is taken,
    it holds all that was stored before it ([LoadFailure] gives the struct
    of every exit: the states, the start index, the symbols before a
    repeated one, the flags of the finish words before a refused one, the
    transitions of the lines before a refused one). *)
Theorem LoadAutomaton_failure
    (a0 : Automaton) (file : option (list ascii)) (msg : Diag) (a' : Automaton) :
  LoadAutomaton a0 file = Return1 msg a' ->
  return_code (LoadAutomaton a0 file) = Some 1 /\
  (forall stringsFile, main a0 file stringsFile = Some (1, [])) /\
  (LoadHeader a0 file = Return1 msg a' \/
   exists a5 f5 pre line post,
     LoadHeader a0 file = Next (a5, f5) /\
     ReadLines f5 = pre ++ line :: post /\
     load_transitions a5 pre = Next a' /\
     transition_line a' line = Return1 msg a') /\
  match file with
  | None => msg = FileNotOpened /\ a' = set_transitions [] (set_statesNames [] a0)
  | Some content => LoadFailure a0 (ReadLines (fopen content)) msg a'
  end.
Proof.
  intros Hfail. split; [by rewrite Hfail|]. split; [|split].
  - intros stringsFile. unfold main. by rewrite Hfail.
  - unfold LoadAutomaton in Hfail.
    destruct (LoadHeader a0 file) as [[a5 f5]|msg5 a5'|]; simpl in Hfail;
      [|injection Hfail as -> ->; by left|done].
    right. apply load_transitions_refused in Hfail as (pre & line & post & Hl & Hpre & Hline).
    by exists a5, f5, pre, line, post.
  - destruct file as [content|].
    + apply LoadLines_failure. by rewrite <- LoadAutomaton_LoadLines.
    + by injection Hfail as <- <-.
Qed.

Lemma LoadAutomaton_failure_witness :
  LoadAutomaton blank (Some unknown_target)
    = Return1 (InvalidTransition (cs "even") (cs "1") (cs "nowhere")) unknown_target_left /\
  (forall stringsFile, main blank (Some unknown_target) stringsFile = Some (1, [])) /\
  LoadFailure blank (ReadLines (fopen unknown_target))
    (InvalidTransition (cs "even") (cs "1") (cs "nowhere")) unknown_target_left.
Proof.
  assert (LoadAutomaton blank (Some unknown_target)
    = Return1 (InvalidTransition (cs "even") (cs "1") (cs "nowhere")) unknown_target_left)
    as H by (vm_compute; reflexivity).
  split; [exact H|].
  pose proof (LoadAutomaton_failure blank (Some unknown_target) _ _ H)
    as (_ & Hmain & _ & Hleft).
  split; [exact Hmain|exact Hleft].
Defined.

(** A failure in the header: the start state is not listed, and the
    states read are in the struct. *)
Example LoadAutomaton_failure_in_header :
  LoadAutomaton blank (Some (cs "q9
q0 q1
a
"))
  = Return1 (StartStateNotListed (cs "q9"))
      (mkAutomaton [cs "q0"; cs "q1"] [] (-1) [] []).
Proof. vm_compute. reflexivity. Qed.

(** C7, as the specification has it, fails: after this failed load the
    struct of the caller holds two states, two symbols, a finish flag and a
    transition. *)
Lemma LoadAutomaton_partial_state_counterexample :
  ~ (forall a0 file msg a',
       LoadAutomaton a0 file = Return1 msg a' ->
       a' = set_transitions [] (set_statesNames [] a0)).
Proof.
  intros Hclean.
  specialize (Hclean blank (Some unknown_target)
                (InvalidTransition (cs "even") (cs "1") (cs "nowhere"))
                unknown_target_left).
  assert (unknown_target_left = set_transitions [] (set_statesNames [] blank)) as Heq
    by (apply Hclean; vm_compute; reflexivity).
  discriminate Heq.
Qed.
